(** * Best Test Request: the benchmark runner [runner.py]

    A shallow embedding of [runner.py] and the properties of its process
    lifecycle: which calls the runner issues on the [Subtask] handles of a
    pairing, in which order, and which row it prints.

    The runner is interactive: it spawns processes, reads a clock, waits on
    handles and prints.  Everything outside [runner.py] (the [subtask]
    package, [time.perf_counter], [requests], the operating system) is an
    environment the runner talks to through a record of operations [OS];
    each operation may return, raise a Python exception, or never return.
    The runner itself is written in a small state-and-exception monad that
    threads the interpreter's objects (the [dict]s passed as [env]), the
    environment and the log of every call issued.

    A [KeyboardInterrupt] is raised by the call during which it arrives;
    [print] only writes to the log: a write that fails is not modelled.

    [perf_counter] readings are Python floats.  A finite float is taken as
    the rational it stands for; the subtraction of two floats rounds, and
    which float it rounds to is left open (see [FloatArith]), so that what
    is proved of a computed duration holds of the rounded difference the
    program compares and prints.  The timeouts passed to [wait] are only
    handed on; the literal [0.1] is written as the decimal it is read
    from. *)

From Stdlib Require Import QArith Lqa.
From stdpp Require Import base gmap strings list fin_maps pretty.

Close Scope Q_scope.

(** ** Python values used by the runner *)

(** An exception instance: its class and the classes it is an instance of
    (its method resolution order, the class itself first). *)
Record exn := Exn { exn_class : string; exn_mro : list string }.

(** [isinstance(e, cls)], the test an [except cls:] clause performs. *)
Definition isinstance (e : exn) (cls : string) : bool :=
  bool_decide (cls ∈ exn_mro e).

(** What a call into the environment does: it returns a value, raises, or
    never returns (an unbounded readiness loop, an un-timed wait on a
    process that never exits). *)
Inductive reply (A : Type) : Type :=
  | Returns (a : A)
  | Raises (e : exn)
  | Blocks.
Arguments Returns {A} a.
Arguments Raises {A} e.
Arguments Blocks {A}.

(** ** Module constants *)

(** The number of tests to be run *)
Definition NUM_TESTS : Z := 100.
(** The number of requests to be sent per test *)
Definition NUM_REQUESTS : Z := 50.
(** Test timeout duration *)
Definition TEST_TIMEOUT : Z := 120.

(** [str(n)] on an [int]. *)
Definition str (n : Z) : string := pretty n.

(** ** Floats *)

(** Python's [a - b] on two floats: the difference, rounded to a float.
    The rounding is not modelled: the properties below hold for every
    subtraction.  A comparison of a float with an [int], as in
    [duration > TEST_TIMEOUT], is exact. *)
Class FloatArith := float_sub : Q → Q → Q.

(** ** Strings *)

(** The characters [\n] and [\r]. *)
Definition LF : string := String (Ascii.ascii_of_nat 10) EmptyString.
Definition CR : string := String (Ascii.ascii_of_nat 13) EmptyString.

(** [s * n] *)
Fixpoint times (s : string) (n : nat) : string :=
  match n with
  | O => EmptyString
  | S n' => s +:+ times s n'
  end.

(** [s.ljust(width)] *)
Definition ljust (s : string) (width : nat) : string :=
  s +:+ times " " (width - String.length s).

(** ** [server_is_up] *)

Module Requests.
(** [requests.exceptions.ConnectionError], which [runner.py] imports under
    the name [ConnectionError] (shadowing the builtin of that name). *)
Definition ConnectionError : string := "requests.exceptions.ConnectionError".

(** A response object; only its status code matters here. *)
Record Response := { status_code : Z }.

(** The outcome of [requests.get(url, params)]. *)
Definition get_outcome := reply Response.
End Requests.

(** Callback to determine whether the server is up and running.
    [get] is the environment's answer to
    [requests.get("http://127.0.0.1:5001/", {"input": 1})]. *)
Definition server_is_up
    (get : string → list (string * Z) → Requests.get_outcome) : reply bool :=
  match get "http://127.0.0.1:5001/" [("input", 1%Z)] with
  | Returns _ => Returns true
  | Raises e =>
      if isinstance e Requests.ConnectionError then Returns false
      else Raises e
  | Blocks => Blocks
  end.

(** ** The interpreter state *)

(** Address of a [dict] object. *)
Definition loc := nat.
(** Identity of a [Subtask] object. *)
Definition handle := nat.
(** The contents of a [dict[str, str]]. *)
Abbreviation environ := (gmap string string).

Inductive stream := stdout | stderr.

(** [colorama.Fore] values used; [NoColor] is the default [color=""]. *)
Inductive color := NoColor | ForeYellow.

(** The [duration: Union[float, str]] argument of [print_output]. *)
Inductive duration_arg :=
  | DurFloat (q : Q)
  | DurStr (s : string).

(** The [wait_for] argument of [Subtask]: the only callback the runner
    passes is [server_is_up]. *)
Inductive callback := ServerIsUp.

(** Every call the runner issues, with the environment's reply. *)
Inductive event :=
  | ESubtask (h : handle) (args : list string) (env : environ)
      (wait_for : option callback) (r : reply unit)
  | EPerfCounter (r : reply Q)
  | EWait (h : handle) (timeout : option Q) (r : reply (option Z))
  | EPoll (h : handle) (r : reply (option Z))
  | EInterrupt (h : handle) (r : reply unit)
  | EKill (h : handle) (r : reply unit)
  | EPrint (text : string)
  | EPrintOutput (server tester : string) (duration : duration_arg)
      (ending : string) (output : stream) (c : color).

(** The environment: the [subtask] package over the operating system, the
    clock and the calendar.  [W] is the environment's own state. *)
Record OS (W : Type) := {
  (** [Subtask(args, env=env, wait_for=wait_for)]: spawns the process and,
      with a [wait_for], returns once the callback has answered [True]. *)
  os_subtask : handle → list string → environ → option callback → W → reply unit * W;
  (** [time.perf_counter()] *)
  os_perf_counter : W → reply Q * W;
  (** [Subtask.wait(timeout)]: the exit status, or [None] when the process is
      still running after [timeout] seconds. *)
  os_wait : handle → option Q → W → reply (option Z) * W;
  (** [Subtask.poll()] *)
  os_poll : handle → W → reply (option Z) * W;
  (** [Subtask.interrupt()] *)
  os_interrupt : handle → W → reply unit * W;
  (** [Subtask.kill()] *)
  os_kill : handle → W → reply unit * W;
  (** [datetime.now().isoformat(timespec='minutes')] *)
  os_now_isoformat : W → string * W;
}.
Arguments os_subtask {W}.
Arguments os_perf_counter {W}.
Arguments os_wait {W}.
Arguments os_poll {W}.
Arguments os_interrupt {W}.
Arguments os_kill {W}.
Arguments os_now_isoformat {W}.

(** The interpreter: the [dict] objects alive, the next free addresses, the
    environment, and the log of the calls issued so far (oldest first). *)
Record machine (W : Type) := Machine {
  dicts : gmap loc environ;
  next_loc : loc;
  next_handle : handle;
  world : W;
  log : list event;
}.
Arguments Machine {W}.
Arguments dicts {W}.
Arguments next_loc {W}.
Arguments next_handle {W}.
Arguments world {W}.
Arguments log {W}.

(** How a piece of the runner ends.  [OutOfFuel] is the model's bound on
    the iterations of the progress loop, not a behaviour of the program. *)
Inductive result (A : Type) : Type :=
  | Ok (a : A)
  | Raise (e : exn)
  | Block
  | OutOfFuel.
Arguments Ok {A} a.
Arguments Raise {A} e.
Arguments Block {A}.
Arguments OutOfFuel {A}.

(** ** The monad *)

Definition M (W A : Type) : Type := machine W → result A * machine W.

#[global] Instance M_ret {W} : MRet (M W) := λ A a m, (Ok a, m).

#[global] Instance M_bind {W} : MBind (M W) := λ A B k c m,
  match c m with
  | (Ok a, m') => k a m'
  | (Raise e, m') => (Raise e, m')
  | (Block, m') => (Block, m')
  | (OutOfFuel, m') => (OutOfFuel, m')
  end.

(** Append an event to the log. *)
Definition emit {W} (e : event) (m : machine W) : machine W :=
  Machine (dicts m) (next_loc m) (next_handle m) (world m) (log m ++ [e]).

Definition set_world {W} (w : W) (m : machine W) : machine W :=
  Machine (dicts m) (next_loc m) (next_handle m) w (log m).

(** Issue a call: run the environment's operation, log the call with its
    reply, and continue, raise or block accordingly. *)
Definition perform {W A} (op : W → reply A * W) (ev : reply A → event) : M W A :=
  λ m,
    let '(r, w) := op (world m) in
    let m' := emit (ev r) (set_world w m) in
    match r with
    | Returns a => (Ok a, m')
    | Raises e => (Raise e, m')
    | Blocks => (Block, m')
    end.

(** A [dict] display [{...}]: a fresh object. *)
Definition new_dict {W} (d : environ) : M W loc :=
  λ m,
    (Ok (next_loc m),
     Machine (<[next_loc m := d]> (dicts m)) (S (next_loc m)) (next_handle m)
             (world m) (log m)).

(** [env.update(other)]: the object at [env] is changed in place; keys of
    [other] win. *)
Definition dict_update {W} (env : loc) (other : environ) : M W unit :=
  λ m,
    (Ok tt,
     Machine (alter (λ d, other ∪ d) env (dicts m)) (next_loc m) (next_handle m)
             (world m) (log m)).

(** The contents of the [dict] at [env] (every address the runner holds is
    alive; a dangling one reads as empty). *)
Definition dict_contents {W} (env : loc) (m : machine W) : environ :=
  match dicts m !! env with
  | Some d => d
  | None => ∅
  end.

Section Runner.
Context {W : Type} {arith : FloatArith} (os : OS W).
(** [sys.argv] *)
Context (argv : list string).

(** [Subtask(args, env=env, wait_for=wait_for)]: a new handle. *)
Definition Subtask (args : list string) (env : loc) (wait_for : option callback)
    : M W handle :=
  λ m,
    let h := next_handle m in
    let d := dict_contents env m in
    let m1 := Machine (dicts m) (next_loc m) (S h) (world m) (log m) in
    (perform (os_subtask os h args d wait_for) (ESubtask h args d wait_for);;
     mret h) m1.

Definition perf_counter : M W Q :=
  perform (os_perf_counter os) EPerfCounter.
Definition wait (h : handle) (timeout : option Q) : M W (option Z) :=
  perform (os_wait os h timeout) (EWait h timeout).
Definition poll (h : handle) : M W (option Z) :=
  perform (os_poll os h) (EPoll h).
Definition interrupt (h : handle) : M W unit :=
  perform (os_interrupt os h) (EInterrupt h).
Definition kill (h : handle) : M W unit :=
  perform (os_kill os h) (EKill h).
(** [print(text)] on [stdout]: the call is logged.  A write that fails (a
    closed pipe) is not modelled. *)
Definition print (text : string) : M W unit :=
  λ m, (Ok tt, emit (EPrint text) m).
Definition now_isoformat : M W string :=
  λ m, let '(s, w) := os_now_isoformat os (world m) in (Ok s, set_world w m).

(** *** Base generators *)

Definition flask_server (env : loc) : M W handle :=
  Subtask ["poetry"; "run"; "python"; "-m"; "flask_app"] env (Some ServerIsUp).

Definition express_server (env : loc) : M W handle :=
  Subtask ["npm"; "start"] env (Some ServerIsUp).

Definition pytest_tester (env : loc) : M W handle :=
  dict_update env {[ "NUM_TESTS" := str NUM_TESTS;
                     "NUM_REQUESTS" := str NUM_REQUESTS ]};;
  Subtask ["poetry"; "run"; "pytest"] env None.

Definition jest_tester (env : loc) : M W handle :=
  dict_update env {[ "NUM_TESTS" := str NUM_TESTS;
                     "NUM_REQUESTS" := str NUM_REQUESTS ]};;
  Subtask ["npm"; "run"; "test"] env None.

(** *** Server variants *)

Definition flask_jsonify : M W handle :=
  env ← new_dict {[ "FLASK_JSONIFY" := "TRUE" ]}; flask_server env.

Definition flask_json_lib : M W handle :=
  env ← new_dict ∅; flask_server env.

Definition express : M W handle :=
  env ← new_dict ∅; express_server env.

(** *** Test variants *)

Definition pytest_flask_testing : M W handle :=
  env ← new_dict ∅; pytest_tester env.

Definition pytest_real_request_post : M W handle :=
  env ← new_dict {[ "REAL_REQUEST" := "TRUE" ]}; pytest_tester env.

Definition pytest_real_request_get : M W handle :=
  env ← new_dict {[ "REAL_REQUEST" := "TRUE"; "GET_REQUEST" := "TRUE" ]};
  pytest_tester env.

Definition jest_fetch_post : M W handle :=
  env ← new_dict ∅; jest_tester env.

Definition jest_sync_request_post : M W handle :=
  env ← new_dict {[ "SYNC_REQUEST" := "TRUE" ]}; jest_tester env.

Definition jest_sync_request_curl_post : M W handle :=
  env ← new_dict {[ "SYNC_REQUEST_CURL" := "TRUE" ]}; jest_tester env.

Definition jest_light_my_request : M W handle :=
  env ← new_dict {[ "LIGHT_MY_REQUEST" := "TRUE" ]}; jest_tester env.

Definition jest_fetch_get : M W handle :=
  env ← new_dict {[ "GET_REQUEST" := "TRUE" ]}; jest_tester env.

Definition jest_sync_request_get : M W handle :=
  env ← new_dict {[ "SYNC_REQUEST" := "TRUE"; "GET_REQUEST" := "TRUE" ]};
  jest_tester env.

Definition jest_sync_request_curl_get : M W handle :=
  env ← new_dict {[ "SYNC_REQUEST_CURL" := "TRUE"; "GET_REQUEST" := "TRUE" ]};
  jest_tester env.

(** A function object of type [Callable[[], Subtask]]: its [__name__] and
    what calling it does. *)
Record function := Function { func_name : string; func_call : M W handle }.

(** [class Variation(TypedDict)] *)
Record Variation := { server : function; tester : function }.

(** To adjust the benchmarks being run, comment out or uncomment these
    cases.  The first block is [itertools.product(servers, testers)]. *)
Definition variants : list Variation :=
  (s ← [ Function "flask_jsonify" flask_jsonify;
         Function "flask_json_lib" flask_json_lib;
         Function "express" express ];
   t ← [ Function "pytest_real_request_get" pytest_real_request_get;
         Function "pytest_real_request_post" pytest_real_request_post;
         Function "jest_fetch_get" jest_fetch_get;
         Function "jest_sync_request_get" jest_sync_request_get;
         Function "jest_fetch_post" jest_fetch_post;
         Function "jest_sync_request_post" jest_sync_request_post;
         Function "jest_sync_request_curl_get" jest_sync_request_curl_get;
         Function "jest_sync_request_curl_post" jest_sync_request_curl_post ];
   [ {| server := s; tester := t |} ])
  ++ [ {| server := Function "flask_jsonify" flask_jsonify;
          tester := Function "pytest_flask_testing" pytest_flask_testing |};
       {| server := Function "flask_json_lib" flask_json_lib;
          tester := Function "pytest_flask_testing" pytest_flask_testing |};
       {| server := Function "express" express;
          tester := Function "jest_light_my_request" jest_light_my_request |} ].

(** [print_output]: one table row.  The row is logged with the call's
    arguments; the layout of the line ([name_variant], [ljust], the
    [9.3f] format) is not modelled. *)
Definition print_output (server tester : function) (duration : duration_arg)
    (ending : string) (output : stream) (c : color) : M W unit :=
  λ m,
    (Ok tt,
     emit (EPrintOutput (func_name server) (func_name tester) duration
             ending output c) m).

(** [x is None] *)
Definition is_None {A} (x : option A) : bool :=
  match x with None => true | Some _ => false end.

(** [x != 0] for [x : Optional[int]]: [None != 0] is [True]. *)
Definition ne_zero (x : option Z) : bool :=
  match x with Some 0%Z => false | _ => true end.

(** [a > b] on floats, which is exact. *)
Definition Qgtb (a b : Q) : bool := negb (Qle_bool a b).

(** The [while tester_proc.wait(0.1) is None:] loop of progress mode; its
    value is the [timeout] flag it leaves.  [fuel] bounds the number of
    iterations. *)
Fixpoint progress_loop (fuel : nat) (server tester : function)
    (tester_proc : handle) (start_time : Q) : M W bool :=
  match fuel with
  | O => λ m, (OutOfFuel, m)
  | S fuel' =>
      r ← wait tester_proc (Some (1 # 10)%Q);
      if is_None r then
        now ← perf_counter;
        let duration := float_sub now start_time in
        (* Check for timeout *)
        if Qgtb duration (inject_Z TEST_TIMEOUT) then
          interrupt tester_proc;;
          mret true
        else
          print_output server tester (DurFloat duration) CR stderr ForeYellow;;
          progress_loop fuel' server tester tester_proc start_time
      else mret false
  end.

(** The silent branch: one [wait(TEST_TIMEOUT)], then [poll]. *)
Definition silent_wait (tester_proc : handle) : M W bool :=
  r ← wait tester_proc (Some (inject_Z TEST_TIMEOUT));
  if ne_zero r then
    p ← poll tester_proc;
    if is_None p then
      interrupt tester_proc;;
      mret true
    else mret false
  else mret false.

(** The body of [for variant in variants:] in [main], in two parts.

    Lines 233-262: start the server, read the clock, start the tester and
    wait for it; the values are the variables the rest of the body reads:
    [server_proc], [start_time], [tester_proc] and [timeout]. *)
Definition start_and_wait (fuel : nat) (variant : Variation)
    : M W (handle * Q * handle * bool) :=
  let server := variant.(server) in
  server_proc ← func_call server;
  let tester := variant.(tester) in
  start_time ← perf_counter;
  tester_proc ← func_call tester;
  timeout ←
    (if bool_decide ("--progress" ∈ argv) then
       progress_loop fuel server tester tester_proc start_time
     else silent_wait tester_proc);
  mret (server_proc, start_time, tester_proc, timeout).

(** Lines 263-280: the final duration, the server teardown and the row. *)
Definition teardown_and_report (variant : Variation) (server_proc : handle)
    (start_time : Q) (tester_proc : handle) (timeout : bool) : M W unit :=
  let server := variant.(server) in
  let tester := variant.(tester) in
  now ← perf_counter;
  let duration := float_sub now start_time in
  interrupt server_proc;;
  wait server_proc (Some 1%Q);;
  kill server_proc;;
  if timeout then
    print_output server tester
      (DurStr ("Timeout (" +:+ str TEST_TIMEOUT +:+ " s)")) LF stdout NoColor
  else
    r ← wait tester_proc None;
    if ne_zero r then
      print_output server tester (DurStr "Error") LF stdout NoColor
    else
      print_output server tester (DurFloat duration) LF stdout NoColor.

Definition main_iteration (fuel : nat) (variant : Variation) : M W unit :=
  '(server_proc, start_time, tester_proc, timeout) ← start_and_wait fuel variant;
  teardown_and_report variant server_proc start_time tester_proc timeout.

Fixpoint for_each (fuel : nat) (vs : list Variation) : M W unit :=
  match vs with
  | [] => mret tt
  | variant :: vs' => main_iteration fuel variant;; for_each fuel vs'
  end.

Definition header : M W unit :=
  print "# Best Test Request";;
  print "";;
  print "A simple benchmark to determine the best request function when ";;
  print "testing (or at least the fastest one).";;
  print "";;
  stamp ← now_isoformat;
  print ("This page was last updated at " +:+ stamp);;
  print "";;
  print ("Each variant was benchmarked using a suite of " +:+ str NUM_TESTS
         +:+ " tests,");;
  print ("with each test sending " +:+ str NUM_REQUESTS +:+ " requests.");;
  print "";;
  print ("| " +:+ ljust "Server" 25 +:+ " "
         +:+ "| " +:+ ljust "Tester" 30 +:+ " "
         +:+ "| " +:+ ljust "Duration" 9 +:+ " "
         +:+ "|");;
  print ("| " +:+ times "-" 25 +:+ " | " +:+ times "-" 30 +:+ " | "
         +:+ times "-" 8 +:+ ": |").

(** [main]; [fuel] bounds the progress loop of each pairing. *)
Definition main (fuel : nat) : M W unit :=
  header;;
  for_each fuel variants.

(** [try: body  except cls: handler] *)
Definition try_except {A} (body : M W A) (cls : string) (handler : exn → M W A)
    : M W A :=
  λ m,
    match body m with
    | (Raise e, m') =>
        if isinstance e cls then handler e m' else (Raise e, m')
    | r => r
    end.

(** A bare [raise] inside a handler: the exception being handled. *)
Definition reraise {A} (e : exn) : M W A := λ m, (Raise e, m).

(** The [if __name__ == '__main__':] block.  What the interpreter does
    with an exception that leaves the block (the traceback it writes to
    [stderr], the exit status) comes after the block and is not a call of
    the runner: the log ends where the block is left. *)
Definition script (fuel : nat) : M W unit :=
  try_except (main fuel) "KeyboardInterrupt"
    (λ e, print (LF +:+ "Aborted");; reraise e).

End Runner.

Arguments function : clear implicits.
Arguments Variation : clear implicits.

(** The exception a Ctrl-C raises in the main thread. *)
Definition KeyboardInterrupt : exn :=
  Exn "KeyboardInterrupt" ["KeyboardInterrupt"; "BaseException"; "object"].

(** What [Popen] raises for a missing executable. *)
Definition FileNotFoundError : exn :=
  Exn "FileNotFoundError"
      ["FileNotFoundError"; "OSError"; "Exception"; "BaseException"; "object"].

(** The interpreter at start-up. *)
Definition boot {W} (w : W) : machine W := Machine ∅ 0 0 w [].

(** ** A simulated environment *)

(** Modelled from the spec: the Process Handle of the specification
    (section 4.1).  The [subtask] package is imported by [runner.py] and is
    not part of the repository.  The simulation runs over an exact clock:
    the constructor launches the process and, with a [wait_for], returns
    once the server is ready; [poll] never blocks; [wait(timeout)] returns
    when the process terminates or [timeout] elapses, whichever first, and
    without a timeout only when the process terminates; [interrupt] sends a
    signal the process may ignore; [kill] terminates it at once; both are
    no-ops on a terminated process.  The cadence at which a [wait]
    re-checks the process is not simulated: a wait returns at the instant
    of the exit, and no time passes between two calls.  The simulation
    serves for the state of the processes and for concrete runs; no
    general bound on a measured time is drawn from it. *)
Module Sim.

(** How a spawned process behaves. *)
Record behaviour := Behaviour {
  (** the constructor raises this instead of returning *)
  spawn_error : option exn;
  (** seconds until [wait_for] answers [True]; [None]: never *)
  startup : option Q;
  (** the process exits by itself this long after its launch; [None]: never *)
  run_time : option Q;
  (** with this exit code *)
  exit_code : Z;
  (** on an interrupt signal it exits after this delay with this code;
      [None]: it ignores the signal *)
  on_interrupt : option (Q * Z);
}.

(** A launched process: when it terminates (if ever) and with which code. *)
Record process := Process {
  exits_at : option Q;
  code : Z;
  sigint : option (Q * Z);
}.

Record sim := Make {
  clock : Q;
  procs : gmap handle process;
}.

(** Exit status of [p] as observed at time [t]; [None] while running. *)
Definition exit_status (p : process) (t : Q) : option Z :=
  match exits_at p with
  | Some e => if Qle_bool e t then Some (code p) else None
  | None => None
  end.

(** Is the process of handle [h] running at the current time? *)
Definition running (h : handle) (w : sim) : bool :=
  match procs w !! h with
  | Some p => is_None (exit_status p (clock w))
  | None => false
  end.

Definition later (a b : Q) : Q := if Qle_bool a b then b else a.

Section Plan.
(** The behaviour of the process each handle stands for. *)
Context (plan : handle → behaviour).

Definition subtask (h : handle) (args : list string) (env : environ)
    (wait_for : option callback) (w : sim) : reply unit * sim :=
  let b := plan h in
  match spawn_error b with
  | Some e => (Raises e, w)
  | None =>
      let p := Process ((λ r, clock w + r)%Q <$> run_time b) (exit_code b)
                       (on_interrupt b) in
      let w' := Make (clock w) (<[h := p]> (procs w)) in
      match wait_for with
      | None => (Returns tt, w')
      | Some _ =>
          match startup b with
          | Some s => (Returns tt, Make (clock w + s)%Q (procs w'))
          | None => (Blocks, w')
          end
      end
  end.

Definition perf_counter (w : sim) : reply Q * sim := (Returns (clock w), w).

Definition wait (h : handle) (timeout : option Q) (w : sim)
    : reply (option Z) * sim :=
  match procs w !! h with
  | None => (Returns None, w)
  | Some p =>
      match exits_at p, timeout with
      | Some e, Some t =>
          if Qle_bool e (clock w + t)%Q
          then (Returns (Some (code p)), Make (later (clock w) e) (procs w))
          else (Returns None, Make (clock w + t)%Q (procs w))
      | Some e, None =>
          (Returns (Some (code p)), Make (later (clock w) e) (procs w))
      | None, Some t => (Returns None, Make (clock w + t)%Q (procs w))
      | None, None => (Blocks, w)
      end
  end.

Definition poll (h : handle) (w : sim) : reply (option Z) * sim :=
  match procs w !! h with
  | None => (Returns None, w)
  | Some p => (Returns (exit_status p (clock w)), w)
  end.

(** The earlier of the exit already due and the exit the signal causes. *)
Definition signalled (p : process) (at_ : Q) (c : Z) : process :=
  match exits_at p with
  | Some e => if Qle_bool e at_ then p else Process (Some at_) c (sigint p)
  | None => Process (Some at_) c (sigint p)
  end.

Definition interrupt (h : handle) (w : sim) : reply unit * sim :=
  match procs w !! h with
  | None => (Returns tt, w)
  | Some p =>
      match sigint p with
      | Some (d, c) =>
          (Returns tt,
           Make (clock w) (<[h := signalled p (clock w + d)%Q c]> (procs w)))
      | None => (Returns tt, w)
      end
  end.

Definition kill (h : handle) (w : sim) : reply unit * sim :=
  match procs w !! h with
  | None => (Returns tt, w)
  | Some p =>
      (Returns tt,
       Make (clock w) (<[h := signalled p (clock w) (-9)%Z]> (procs w)))
  end.

(** Modelled from the spec: the operations of the Process Handle as the
    environment of the runner. *)
Definition os : OS sim := {|
  os_subtask := subtask;
  os_perf_counter := perf_counter;
  os_wait := wait;
  os_poll := poll;
  os_interrupt := interrupt;
  os_kill := kill;
  os_now_isoformat := λ w, ("2024-01-01T00:00", w);
|}.
End Plan.

Definition start : machine sim := boot (Make 0%Q ∅).

(** The simulated clock shows rationals, and their difference is taken
    exactly. *)
Definition exact_arith : FloatArith := Qminus.

(** A server that is ready after [s] seconds, runs until signalled and
    then exits at once. *)
Definition server_ready_after (s : Q) : behaviour :=
  Behaviour None (Some s) None 0 (Some (0%Q, 130%Z)).

(** A tester that runs [r] seconds and exits with [c]; interrupted, it
    exits at once. *)
Definition tester_running (r : Q) (c : Z) : behaviour :=
  Behaviour None None (Some r) c (Some (0%Q, 130%Z)).

(** A tester that never exits and ignores the interrupt signal. *)
Definition stubborn_tester : behaviour :=
  Behaviour None None None 0 None.

(** A command that cannot be started. *)
Definition missing_executable : behaviour :=
  Behaviour (Some FileNotFoundError) None None 0 None.

(** The operator presses Ctrl-C while the constructor is waiting. *)
Definition interrupted_by_operator : behaviour :=
  Behaviour (Some KeyboardInterrupt) None None 0 None.

(** Handle 0 behaves as [s], every other handle as [t]: the plan of a
    single pairing from [start]. *)
Definition pairing (s t : behaviour) : handle → behaviour :=
  λ h, match h with O => s | _ => t end.

End Sim.

(** ** A scripted environment *)

(** A test double: the environment answers the calls of the runner from a
    tape, one answer a call, whatever the handle.  A call that finds the
    tape empty, or an answer of another kind at its head, never returns. *)
Module Replay.

Inductive answer :=
  | Spawned (r : reply unit)
  | Clock (r : reply Q)
  | Status (r : reply (option Z))
  | Done (r : reply unit).

Definition tape := list answer.

Definition subtask (h : handle) (args : list string) (env : environ)
    (wait_for : option callback) (w : tape) : reply unit * tape :=
  match w with
  | Spawned r :: w' => (r, w')
  | _ => (Blocks, w)
  end.

Definition perf_counter (w : tape) : reply Q * tape :=
  match w with
  | Clock r :: w' => (r, w')
  | _ => (Blocks, w)
  end.

Definition status (w : tape) : reply (option Z) * tape :=
  match w with
  | Status r :: w' => (r, w')
  | _ => (Blocks, w)
  end.

Definition signal (w : tape) : reply unit * tape :=
  match w with
  | Done r :: w' => (r, w')
  | _ => (Blocks, w)
  end.

Definition os : OS tape := {|
  os_subtask := subtask;
  os_perf_counter := perf_counter;
  os_wait := λ _ _, status;
  os_poll := λ _, status;
  os_interrupt := λ _, signal;
  os_kill := λ _, signal;
  os_now_isoformat := λ w, ("2024-01-01T00:00", w);
|}.

End Replay.
(** * Observations on runs

    The vocabulary of the properties: what a constructor call leaves
    behind, which events belong to which part of a pairing, what it means
    for one event to come before another. *)

(** A read timeout is not a connection error: [ReadTimeout] derives from
    [Timeout], not from [ConnectionError]. *)
Definition ReadTimeout : exn :=
  Exn "requests.exceptions.ReadTimeout"
      ["requests.exceptions.ReadTimeout"; "requests.exceptions.Timeout";
       "requests.exceptions.RequestException"; "OSError"; "Exception";
       "BaseException"; "object"].

(** A refused connection. *)
Definition ConnectionRefused : exn :=
  Exn Requests.ConnectionError
      [Requests.ConnectionError; "requests.exceptions.RequestException";
       "OSError"; "Exception"; "BaseException"; "object"].

(** What the environment's reply to the constructor makes of the call. *)
Definition constructed (rep : reply unit) (h : handle) : result handle :=
  match rep with
  | Returns _ => Ok h
  | Raises e => Raise e
  | Blocks => Block
  end.

(** After [env.update], [env] holds the two counts and keeps its other
    keys. *)
Definition counts_set (before after : environ) : Prop :=
  after !! "NUM_TESTS" = Some "100" ∧
  after !! "NUM_REQUESTS" = Some "50" ∧
  ∀ k, k ≠ "NUM_TESTS" → k ≠ "NUM_REQUESTS" → after !! k = before !! k.

(** A result that is not a value, at another type. *)
Definition carried {A B} (ra : result A) (rb : result B) : Prop :=
  match ra, rb with
  | Raise e, Raise e' => e = e'
  | Block, Block => True
  | OutOfFuel, OutOfFuel => True
  | _, _ => False
  end.

(** A part of the runner that only appends [evs] to the log and changes
    the environment. *)
Definition appends {W} (m m' : machine W) (evs : list event) : Prop :=
  log m' = log m ++ evs ∧
  dicts m' = dicts m ∧ next_loc m' = next_loc m ∧ next_handle m' = next_handle m.

Section Observations.
Context {W : Type} (os : OS W).

(** A tester generator changes the object at [env] and nothing else of
    the store, and hands the changed contents to [Subtask]. *)
Definition updates_in_place (gen : loc → M W handle) (args : list string) : Prop :=
  ∀ (env : loc) (d : environ) (m : machine W),
    dicts m !! env = Some d →
    ∃ d' rep w,
      counts_set d d' ∧
      os_subtask os (next_handle m) args d' None (world m) = (rep, w) ∧
      gen env m =
        (constructed rep (next_handle m),
         Machine (<[env := d']> (dicts m)) (next_loc m) (S (next_handle m)) w
                 (log m ++ [ESubtask (next_handle m) args d' None rep])).

(** The run of a [Subtask] constructor from a machine whose next handle,
    environment and log are [nh], [w] and [lg]: the call is logged with
    its reply, and the handle [nh] is the value when it returns. *)
Definition spawned (args : list string) (d : environ) (wait_for : option callback)
    (ds : gmap loc environ) (nl : loc) (nh : handle) (w : W) (lg : list event)
    : result handle * machine W :=
  let '(rep, w') := os_subtask os nh args d wait_for w in
  (constructed rep nh,
   Machine ds nl (S nh) w' (lg ++ [ESubtask nh args d wait_for rep])).

(** A generator makes exactly one call into the environment, the
    constructor of its [Subtask] with the given [wait_for], and leaves the
    log otherwise alone. *)
Definition is_generator (wait_for : option callback) (f : function W) : Prop :=
  ∀ m : machine W, ∃ args d ds nl,
    func_call f m =
    spawned args d wait_for ds nl (next_handle m) (world m) (log m).

(** The row of the table a pairing ends with. *)
Definition row (v : Variation W) (d : duration_arg) : event :=
  EPrintOutput (func_name (server v)) (func_name (tester v)) d LF stdout NoColor.

(** What the report of a completed iteration is, given the [timeout]
    flag, the clock readings and the events [final] after the teardown. *)
Definition reported (v : Variation W) (ht : handle) (timeout : bool)
    (duration : Q) (final : list event) : Prop :=
  if timeout then final = [row v (DurStr "Timeout (120 s)")]
  else ∃ st, final = [EWait ht None (Returns st);
                      row v (if ne_zero st then DurStr "Error"
                             else DurFloat duration)].

End Observations.

(** ** Events of a pairing *)

(** The events of the wait on the tester [ht]: timed waits, polls and the
    interrupt on [ht], clock readings, and progress rows. *)
Definition waiting_event (ht : handle) (e : event) : Prop :=
  match e with
  | EWait h (Some _) _ | EPoll h _ | EInterrupt h _ => h = ht
  | EPerfCounter _ => True
  | EPrintOutput _ _ _ _ stderr _ => True
  | _ => False
  end.

(** The tester [ht] is observed terminated: a wait or a poll on it reports
    an exit status. *)
Definition reports_exit (ht : handle) (e : event) : Prop :=
  match e with
  | EWait h _ (Returns (Some _)) | EPoll h (Returns (Some _)) => h = ht
  | _ => False
  end.

(** An interrupt is issued on [h]. *)
Definition interrupts (h : handle) (e : event) : Prop :=
  match e with
  | EInterrupt h' _ => h' = h
  | _ => False
  end.

(** An interrupt on [h] returned. *)
Definition interrupted (h : handle) (e : event) : Prop :=
  match e with
  | EInterrupt h' (Returns _) => h' = h
  | _ => False
  end.

(** A wait, timed or not, is issued on [h]. *)
Definition waits_on (h : handle) (e : event) : Prop :=
  match e with
  | EWait h' _ _ => h' = h
  | _ => False
  end.

(** The un-timed [wait()] is issued on [h]. *)
Definition untimed_wait (h : handle) (e : event) : Prop :=
  match e with
  | EWait h' None _ => h' = h
  | _ => False
  end.

(** A kill is issued on [h]. *)
Definition kills (h : handle) (e : event) : Prop :=
  match e with
  | EKill h' _ => h' = h
  | _ => False
  end.

(** The constructor of [h] returned. *)
Definition started (h : handle) (e : event) : Prop :=
  match e with
  | ESubtask h' _ _ _ (Returns _) => h' = h
  | _ => False
  end.

(** The constructor of [h] is called. *)
Definition starts (h : handle) (e : event) : Prop :=
  match e with
  | ESubtask h' _ _ _ _ => h' = h
  | _ => False
  end.

(** The tester [ht] has completed or timed out: its exit is reported, or
    the interrupt that marks the timeout has been sent. *)
Definition tester_over (ht : handle) (e : event) : Prop :=
  reports_exit ht e ∨ interrupted ht e.

(** An event of the second part of the body: the clock, the teardown of
    [hs], the un-timed wait on [ht], a row on [stdout]. *)
Definition closing_event (hs ht : handle) (e : event) : Prop :=
  match e with
  | EPerfCounter _ => True
  | EInterrupt h _ | EKill h _ | EWait h (Some _) _ => h = hs
  | EWait h None _ => h = ht
  | EPrintOutput _ _ _ _ stdout _ => True
  | _ => False
  end.

(** A table row: a [print_output] on [stdout]. *)
Definition is_row (e : event) : bool :=
  match e with
  | EPrintOutput _ _ _ _ stdout _ => true
  | _ => false
  end.

(** The abort notice of the [__main__] block. *)
Definition is_abort_notice (e : event) : bool :=
  match e with
  | EPrint text => String.eqb text (LF +:+ "Aborted")
  | _ => false
  end.

(** How many events of [evs] satisfy [p]. *)
Definition count (p : event → bool) (evs : list event) : nat :=
  length (List.filter p evs).

(** What the wait on the tester leaves in the log, by its result: with
    [timeout = True] the interrupt on the tester is the last event and the
    only interrupt; with [timeout = False] the last event reports the
    tester's exit and no interrupt was issued. *)
Definition waited (ht : handle) (r : result bool) (evs : list event) : Prop :=
  Forall (waiting_event ht) evs ∧
  match r with
  | Ok true =>
      ∃ evs0, evs = evs0 ++ [EInterrupt ht (Returns tt)] ∧
              Forall (λ e, ¬ interrupts ht e) evs0
  | Ok false =>
      (∃ evs0 e, evs = evs0 ++ [e] ∧ reports_exit ht e) ∧
      Forall (λ e, ¬ interrupts ht e) evs
  | _ => True
  end.

(** The calls that start a pairing, as far as they got: the server's
    constructor, the clock reading, the tester's constructor, each issued
    once the one before has returned. *)
Inductive start_events (hs ht : handle) : list event → Prop :=
  | start_server a d f rep :
      start_events hs ht [ESubtask hs a d f rep]
  | start_clock a d f rep :
      start_events hs ht [ESubtask hs a d f (Returns tt); EPerfCounter rep]
  | start_tester a d f start a' d' f' rep :
      start_events hs ht
        [ESubtask hs a d f (Returns tt); EPerfCounter (Returns start);
         ESubtask ht a' d' f' rep].

(** The three calls when all of them returned: the server's constructor
    (with its readiness wait), then the reading [start] of the clock, then
    the tester's constructor. *)
Definition both_started (hs ht : handle) (start : Q) (pre : list event) : Prop :=
  ∃ a d a' d',
    pre = [ESubtask hs a d (Some ServerIsUp) (Returns tt);
           EPerfCounter (Returns start);
           ESubtask ht a' d' None (Returns tt)].

(** The teardown of the server [hs] once every call of it has returned:
    the clock reading [now], the interrupt, the wait of one second, the
    kill. *)
Definition teardown_events (hs : handle) (now : Q) (r1 : option Z) : list event :=
  [EPerfCounter (Returns now); EInterrupt hs (Returns tt);
   EWait hs (Some 1%Q) (Returns r1); EKill hs (Returns tt)].

(** A kill on [h] returned. *)
Definition killed (h : handle) (e : event) : Prop :=
  match e with
  | EKill h' (Returns _) => h' = h
  | _ => False
  end.

(** ** Calls that raise *)

(** The call logged as [ev] raised [e]. *)
Definition raises (e : exn) (ev : event) : Prop :=
  match ev with
  | ESubtask _ _ _ _ (Raises e') | EPerfCounter (Raises e')
  | EWait _ _ (Raises e') | EPoll _ (Raises e')
  | EInterrupt _ (Raises e') | EKill _ (Raises e') => e' = e
  | _ => False
  end.

(** The call logged as [ev] raised. *)
Definition raised (ev : event) : Prop := ∃ e, raises e ev.

(** Nothing is done past a call that raises: a piece of the runner that
    ends with the exception [e] has issued, last of all, the call that
    raised [e], and no call before it raised; a piece that ends otherwise
    has issued no call that raised. *)
Definition ends_at_raise {A} (r : result A) (evs : list event) : Prop :=
  match r with
  | Raise e =>
      ∃ before ev, evs = before ++ [ev] ∧ raises e ev ∧
                   Forall (λ ev', ¬ raised ev') before
  | _ => Forall (λ ev, ¬ raised ev) evs
  end.

(** The same of every run of a piece [c] of the runner. *)
Definition stops_at_raise {W A} (c : M W A) : Prop :=
  ∀ m r m', c m = (r, m') →
    ∃ evs, log m' = log m ++ evs ∧ ends_at_raise r evs.

(** ** Order of events *)

(** [evs] holds events that satisfy the predicates [Ps], one for each and
    one after the other in the order of [Ps]. *)
Fixpoint in_order (Ps : list (event → Prop)) (evs : list event) : Prop :=
  match Ps with
  | [] => True
  | P :: Ps' =>
      ∃ before e after, evs = before ++ e :: after ∧ P e ∧ in_order Ps' after
  end.

(** Every event satisfying [Q] has an earlier event satisfying [P]. *)
Definition precedes (P Q : event → Prop) (evs : list event) : Prop :=
  ∀ i e, evs !! i = Some e → Q e →
    ∃ j e', j < i ∧ evs !! j = Some e' ∧ P e'.

(** The same, read off the list from left to right; [seen] holds when a
    [P] event came before the list. *)
Fixpoint scan (P Q : event → Prop) (seen : Prop) (evs : list event) : Prop :=
  match evs with
  | [] => True
  | e :: evs' => (Q e → seen) ∧ scan P Q (seen ∨ P e) evs'
  end.

(** No event satisfying [Q] comes after an event satisfying [P]. *)
Definition never_after (P Q : event → Prop) (evs : list event) : Prop :=
  ∀ i j e e', i < j → evs !! i = Some e → evs !! j = Some e' → P e → ¬ Q e'.

(** The same, read off the list from left to right. *)
Fixpoint none_after (P Q : event → Prop) (evs : list event) : Prop :=
  match evs with
  | [] => True
  | e :: evs' => (P e → Forall (λ e', ¬ Q e') evs') ∧ none_after P Q evs'
  end.

(** A call of the server teardown on [hs]: its interrupt, a wait on it, or
    its kill. *)
Definition teardown_call (hs : handle) (e : event) : Prop :=
  interrupts hs e ∨ waits_on hs e ∨ kills hs e.

(** ** Scenarios in the simulated environment *)

Module Scenario.

(** The first pairing of [variants]. *)
Definition first_pairing (plan : handle → Sim.behaviour) : Variation Sim.sim :=
  {| server := Function "flask_jsonify" (flask_jsonify (Sim.os plan));
     tester := Function "pytest_real_request_get"
                 (pytest_real_request_get (Sim.os plan)) |}.

(** The server is ready after three seconds in each of these. *)

(** The tester passes after one second. *)
Definition quick : handle → Sim.behaviour :=
  Sim.pairing (Sim.server_ready_after 3) (Sim.tester_running 1 0).

(** The tester fails after one second. *)
Definition failing : handle → Sim.behaviour :=
  Sim.pairing (Sim.server_ready_after 3) (Sim.tester_running 1 1).

(** The tester would run for 200 seconds; interrupted, it exits at once. *)
Definition slow : handle → Sim.behaviour :=
  Sim.pairing (Sim.server_ready_after 3) (Sim.tester_running 200 0).

(** The tester never exits and ignores the interrupt. *)
Definition stubborn : handle → Sim.behaviour :=
  Sim.pairing (Sim.server_ready_after 3) Sim.stubborn_tester.

(** The tester's command cannot be started. *)
Definition no_tester : handle → Sim.behaviour :=
  Sim.pairing (Sim.server_ready_after 3) Sim.missing_executable.

(** The server's command cannot be started. *)
Definition no_server : handle → Sim.behaviour :=
  Sim.pairing Sim.missing_executable Sim.stubborn_tester.

(** The operator presses Ctrl-C while the first server starts. *)
Definition ctrl_c : handle → Sim.behaviour :=
  Sim.pairing Sim.interrupted_by_operator Sim.stubborn_tester.

(** A whole run: servers on the even handles, testers on the odd ones;
    every other tester hangs, the others fail after a second. *)
Definition mixed : handle → Sim.behaviour :=
  λ h, if Nat.even h then Sim.server_ready_after 1
       else if Nat.eqb (h mod 4) 1 then Sim.stubborn_tester
       else Sim.tester_running 1 1.

(** [sys.argv] of a run in progress mode. *)
Definition progress_argv : list string := ["runner.py"; "--progress"].

(** The first pairing of [variants], over a tape of answers. *)
Definition taped_pairing : Variation Replay.tape :=
  {| server := Function "flask_jsonify" (flask_jsonify Replay.os);
     tester := Function "pytest_real_request_get"
                 (pytest_real_request_get Replay.os) |}.

(** Silent mode.  Both processes start, the clock showing 0.  The tester
    is running still when [wait(TEST_TIMEOUT)] runs out, and has exited
    with status 0 by the time of the poll; the clock then shows 120.5.
    The server is interrupted, has exited within the second, and is
    killed; the final wait reads the tester's status. *)
Definition exit_between_wait_and_poll : Replay.tape :=
  [ Replay.Spawned (Returns tt); Replay.Clock (Returns 0%Q);
    Replay.Spawned (Returns tt);
    Replay.Status (Returns None); Replay.Status (Returns (Some 0%Z));
    Replay.Clock (Returns (241 # 2)%Q);
    Replay.Done (Returns tt); Replay.Status (Returns (Some 130%Z));
    Replay.Done (Returns tt);
    Replay.Status (Returns (Some 0%Z)) ].

(** Progress mode.  The tester is running at two polls; the elapsed time
    is 60 seconds after the first and 120.0625 after the second, when it
    is interrupted.  The teardown as above. *)
Definition running_at_every_poll : Replay.tape :=
  [ Replay.Spawned (Returns tt); Replay.Clock (Returns 0%Q);
    Replay.Spawned (Returns tt);
    Replay.Status (Returns None); Replay.Clock (Returns 60%Q);
    Replay.Status (Returns None); Replay.Clock (Returns (1921 # 16)%Q);
    Replay.Done (Returns tt);
    Replay.Clock (Returns (1921 # 16)%Q);
    Replay.Done (Returns tt); Replay.Status (Returns (Some 130%Z));
    Replay.Done (Returns tt) ].

End Scenario.

(** * The rest of [runner.py]: names and layout of the table *)

(** ** [name_variant] *)

(** ASCII letters and their case mapping, as [str.capitalize] acts on them.
    Names with characters outside ASCII are outside this model. *)
Definition is_lower (c : Ascii.ascii) : bool :=
  (97 <=? Ascii.nat_of_ascii c) && (Ascii.nat_of_ascii c <=? 122).

Definition is_upper (c : Ascii.ascii) : bool :=
  (65 <=? Ascii.nat_of_ascii c) && (Ascii.nat_of_ascii c <=? 90).

Definition is_digit (c : Ascii.ascii) : bool :=
  (48 <=? Ascii.nat_of_ascii c) && (Ascii.nat_of_ascii c <=? 57).

Definition ascii_upper (c : Ascii.ascii) : Ascii.ascii :=
  if is_lower c then Ascii.ascii_of_nat (Ascii.nat_of_ascii c - 32) else c.

Definition ascii_lower (c : Ascii.ascii) : Ascii.ascii :=
  if is_upper c then Ascii.ascii_of_nat (Ascii.nat_of_ascii c + 32) else c.

Fixpoint string_map (f : Ascii.ascii → Ascii.ascii) (s : string) : string :=
  match s with
  | EmptyString => EmptyString
  | String c s' => String (f c) (string_map f s')
  end.

Fixpoint string_forall (p : Ascii.ascii → bool) (s : string) : bool :=
  match s with
  | EmptyString => true
  | String c s' => p c && string_forall p s'
  end.

(** The characters [_] and the space. *)
Definition underscore : Ascii.ascii := Ascii.ascii_of_nat 95.
Definition space : Ascii.ascii := Ascii.ascii_of_nat 32.

(** [s.replace("_", " ")] *)
Definition replace_underscores (s : string) : string :=
  string_map (λ c, if Ascii.eqb c underscore then space else c) s.

(** [s.capitalize()]: the first character in upper case, the rest in
    lower case. *)
Definition capitalize (s : string) : string :=
  match s with
  | EmptyString => EmptyString
  | String c s' => String (ascii_upper c) (string_map ascii_lower s')
  end.

(** [func.__name__.replace("_", " ").capitalize()], on the [__name__]. *)
Definition display_name (name : string) : string :=
  capitalize (replace_underscores name).

Definition name_variant {W} (func : function W) : string :=
  display_name (func_name func).

(** A name in ASCII. *)
Definition ascii_only (s : string) : bool :=
  string_forall (λ c, Ascii.nat_of_ascii c <? 128) s.

(** A name in snake case: lower-case letters, digits and underscores. *)
Definition snake_char (c : Ascii.ascii) : bool :=
  is_lower c || is_digit c || Ascii.eqb c underscore.

Definition snake_case (s : string) : bool := string_forall snake_char s.

(** The label back to the name, for snake-case names. *)
Definition undisplay_first (c : Ascii.ascii) : Ascii.ascii :=
  if Ascii.eqb c space then underscore else ascii_lower c.

Definition undisplay_rest (c : Ascii.ascii) : Ascii.ascii :=
  if Ascii.eqb c space then underscore else c.

Definition undisplay (label : string) : string :=
  match label with
  | EmptyString => EmptyString
  | String c rest => String (undisplay_first c) (string_map undisplay_rest rest)
  end.

(** ** The line [print_output] writes *)

(** [colorama.Fore.YELLOW] and [colorama.Fore.RESET]. *)
Definition ESC : string := String (Ascii.ascii_of_nat 27) EmptyString.
Definition Fore_YELLOW : string := ESC +:+ "[33m".
Definition Fore_RESET : string := ESC +:+ "[39m".

(** The value of the [color] argument. *)
Definition color_code (c : color) : string :=
  match c with
  | NoColor => ""
  | ForeYellow => Fore_YELLOW
  end.

Section Layout.
(** [f"{duration:9.3f}"], the formatting of a float: a part of Python
  that is not modelled. *)
Context (format_9_3f : Q → string).

(** The text [print_output] passes to [print], from the [__name__] of
  [server] and [tester] and the other arguments. *)
Definition print_output_text (server tester : string) (duration : duration_arg)
  (c : color) : string :=
let duration :=
  match duration with
  | DurFloat q => format_9_3f q
  | DurStr s => s
  end in
color_code c
+:+ "| " +:+ ljust (display_name server) 25 +:+ " "
+:+ "| " +:+ ljust (display_name tester) 30 +:+ " "
+:+ "| " +:+ ljust duration 9 +:+ " "
+:+ "|"
+:+ (match c with NoColor => "" | _ => Fore_RESET end).

End Layout.

(** The width of a line of the table. *)
Definition table_width : nat := 74.

(** ** More observations *)

(** A progress row shows a duration of at most [TEST_TIMEOUT] seconds, as
    a carriage-returned yellow line on [stderr]. *)
Definition progress_row_within (e : event) : Prop :=
  match e with
  | EPrintOutput _ _ d ending stderr c =>
      (∃ q, d = DurFloat q ∧ (q <= inject_Z TEST_TIMEOUT)%Q) ∧
      ending = CR ∧ c = ForeYellow
  | _ => True
  end.

(** A clock reading whose computed distance from [start] is within
    [TEST_TIMEOUT] seconds. *)
Definition reading_within {arith : FloatArith} (start : Q) (e : event) : Prop :=
  match e with
  | EPerfCounter (Returns now) => (float_sub now start <= inject_Z TEST_TIMEOUT)%Q
  | _ => True
  end.

(** The events of the wait in progress mode. *)
Definition progress_event (ht : handle) (e : event) : Prop :=
  match e with
  | EWait h t _ => h = ht ∧ t = Some (1 # 10)%Q
  | EPerfCounter _ => True
  | EInterrupt h _ => h = ht
  | EPrintOutput _ _ _ _ stderr _ => True
  | _ => False
  end.

(** The events of the wait in silent mode. *)
Definition silent_event (ht : handle) (e : event) : Prop :=
  match e with
  | EWait h t _ => h = ht ∧ t = Some (inject_Z TEST_TIMEOUT)
  | EPoll h _ | EInterrupt h _ => h = ht
  | _ => False
  end.

(** Something is written to [stderr]. *)
Definition writes_stderr (e : event) : Prop :=
  match e with
  | EPrintOutput _ _ _ _ stderr _ => True
  | _ => False
  end.

(** The environment a constructor call hands to the process. *)
Definition tester_environment (d : environ) : Prop :=
  d !! "NUM_TESTS" = Some "100" ∧ d !! "NUM_REQUESTS" = Some "50".

Definition server_environment (d : environ) : Prop :=
  d !! "NUM_TESTS" = None ∧ d !! "NUM_REQUESTS" = None.

(** ** The wait on the tester *)

Section Wait.
Context {W : Type} {arith : FloatArith} (os : OS W) (argv : list string).

(** The wait of [main] on the tester, by the mode [sys.argv] selects:
    the polling loop under [--progress], one timed wait otherwise. *)
Definition wait_phase (fuel : nat) (v : Variation W) (tester_proc : handle)
    (start_time : Q) : M W bool :=
  if bool_decide ("--progress" ∈ argv) then
    progress_loop os fuel (server v) (tester v) tester_proc start_time
  else silent_wait os tester_proc.

End Wait.

(** ** What the pairings start *)

(** The command lines of the base generators. *)
Definition server_command (args : list string) : Prop :=
  args = ["poetry"; "run"; "python"; "-m"; "flask_app"] ∨ args = ["npm"; "start"].

Definition tester_command (args : list string) : Prop :=
  args = ["poetry"; "run"; "pytest"] ∨ args = ["npm"; "run"; "test"].

(** A constructor call as the generators of [variants] issue it: a server
    with the readiness callback and without the two counts, a tester
    without a callback and with the counts. *)
Definition spawn_as_configured (e : event) : Prop :=
  match e with
  | ESubtask _ args d (Some ServerIsUp) _ =>
      server_command args ∧ server_environment d
  | ESubtask _ args d None _ =>
      tester_command args ∧ tester_environment d
  | _ => True
  end.

Section Spawning.
Context {W : Type} (os : OS W).

(** A variant function builds its [dict] anew at every call: the object
    handed to [Subtask] is the one created by this call, at the next
    free address, holding [d] when the constructor is called. *)
Definition spawns (P : list string → environ → Prop)
    (wait_for : option callback) (f : function W) : Prop :=
  ∀ m : machine W, ∃ args d,
    P args d ∧
    func_call f m =
    spawned os args d wait_for (<[next_loc m := d]> (dicts m))
            (S (next_loc m)) (next_handle m) (world m) (log m).

End Spawning.

(** ** Calls of one mode only *)

(** A poll. *)
Definition polls (e : event) : Prop :=
  match e with
  | EPoll _ _ => True
  | _ => False
  end.

(** A wait with the timeout [t]. *)
Definition waits_with (t : Q) (e : event) : Prop :=
  match e with
  | EWait _ (Some t') _ => t' = t
  | _ => False
  end.

(** The only timed wait of the second part of the body lasts a second. *)
Definition waits_a_second (e : event) : Prop :=
  match e with
  | EWait _ (Some t) _ => t = 1%Q
  | _ => True
  end.

(** ** The table *)

(** The names a row is printed for. *)
Definition row_of (e : event) : option (string * string) :=
  match e with
  | EPrintOutput s t _ _ stdout _ => Some (s, t)
  | _ => None
  end.

(** The rows of a log, by the names they are printed for, in order. *)
Definition table (evs : list event) : list (string * string) := omap row_of evs.

(** The [__name__]s of a pairing. *)
Definition pairing_names {W} (v : Variation W) : string * string :=
  (func_name (server v), func_name (tester v)).

(** ** The timeout decision *)

(** The elapsed times computed from the clock readings of [evs]. *)
Definition durations {arith : FloatArith} (start : Q) (evs : list event) : list Q :=
  omap (λ e, match e with
             | EPerfCounter (Returns now) => Some (float_sub now start)
             | _ => None
             end) evs.

(** Each elapsed time of [ds] exceeds the one before it, [prev] for the
    first, by at most [step]. *)
Fixpoint paced (step prev : Q) (ds : list Q) : Prop :=
  match ds with
  | [] => True
  | d :: ds' => (d <= prev + step)%Q ∧ paced step d ds'
  end.

(** What the progress loop has done when it ends with the flag [timeout].
    Set: the last poll found the tester running, the elapsed time computed
    after it exceeds [TEST_TIMEOUT] and the tester was interrupted at once;
    every elapsed time computed before was within [TEST_TIMEOUT], so that
    the last exceeds [TEST_TIMEOUT] by at most the step between two
    consecutive ones.  Clear: the last poll reported the tester's exit, and
    every elapsed time computed was within [TEST_TIMEOUT]. *)
Definition progress_verdict {arith : FloatArith} (ht : handle) (start : Q)
    (timeout : bool) (waiting : list event) : Prop :=
  if timeout then
    ∃ polls late,
      waiting = polls ++ [EWait ht (Some (1 # 10)%Q) (Returns None);
                          EPerfCounter (Returns late);
                          EInterrupt ht (Returns tt)] ∧
      Forall (reading_within start) polls ∧
      (inject_Z TEST_TIMEOUT < float_sub late start)%Q ∧
      ∀ step, paced step 0 (durations start waiting) →
              (float_sub late start <= inject_Z TEST_TIMEOUT + step)%Q
  else
    ∃ polls st,
      waiting = polls ++ [EWait ht (Some (1 # 10)%Q) (Returns (Some st))] ∧
      Forall (reading_within start) waiting.

(** What the silent wait has done when it ends with the flag [timeout]:
    one wait of [TEST_TIMEOUT] seconds; unless it answered [0], a poll; the
    flag is set, and the tester interrupted, exactly when the poll found
    the tester running. *)
Definition silent_verdict (ht : handle) (timeout : bool)
    (waiting : list event) : Prop :=
  ∃ st rest,
    waiting = EWait ht (Some (inject_Z TEST_TIMEOUT)) (Returns st) :: rest ∧
    if timeout then
      st ≠ Some 0%Z ∧
      rest = [EPoll ht (Returns None); EInterrupt ht (Returns tt)]
    else
      (st = Some 0%Z ∧ rest = []) ∨
      (st ≠ Some 0%Z ∧ ∃ code, rest = [EPoll ht (Returns (Some code))]).
(** * Properties *)

(** Unfold the monad and the primitive operations of the interpreter. *)
Ltac run_monad :=
  cbv beta iota zeta delta
    [mbind M_bind mret M_ret dict_update new_dict Subtask perform
     dict_contents set_world emit dicts next_loc next_handle world log
     perf_counter wait poll interrupt kill print print_output now_isoformat
     is_None ne_zero].
Ltac run_monad_in H :=
  cbv beta iota zeta delta
    [mbind M_bind mret M_ret dict_update new_dict Subtask perform
     dict_contents set_world emit dicts next_loc next_handle world log
     perf_counter wait poll interrupt kill print print_output now_isoformat
     is_None ne_zero] in H.

(** The first call the program under evaluation issues: case on the
    environment's reply. *)
Ltac os_case H :=
  match type of H with
  | context [os_subtask ?os ?h ?a ?d ?f ?w] =>
      destruct (os_subtask os h a d f w) as [[[]|?|] ?] eqn:?
  | context [os_perf_counter ?os ?w] =>
      destruct (os_perf_counter os w) as [[?|?|] ?] eqn:?
  | context [os_wait ?os ?h ?t ?w] =>
      destruct (os_wait os h t w) as [[[?|]|?|] ?] eqn:?
  | context [os_poll ?os ?h ?w] =>
      destruct (os_poll os h w) as [[[?|]|?|] ?] eqn:?
  | context [os_interrupt ?os ?h ?w] =>
      destruct (os_interrupt os h w) as [[[]|?|] ?] eqn:?
  | context [os_kill ?os ?h ?w] =>
      destruct (os_kill os h w) as [[[]|?|] ?] eqn:?
  end;
  run_monad_in H.

(** Case on the condition of the conditional under evaluation. *)
Ltac if_case H :=
  match type of H with
  | context [if ?b then _ else _] => destruct b eqn:?
  end;
  run_monad_in H.

(** Evaluate a loop-free run to its end, by cases on every reply. *)
Ltac run_to_end H :=
  repeat
    first
      [ os_case H
      | if_case H
      | match type of H with
        | context [match ?z with 0%Z => _ | _ => _ end] => destruct z
        end; run_monad_in H ].

(** A fact about every event, by cases on the event. *)
Ltac by_event :=
  intros []; cbn;
  repeat (match goal with
          | |- context [match ?x with _ => _ end] => destruct x
          end; cbn);
  try tauto; try congruence; try lia.

(** ** [server_is_up] *)

(** C10: [server_is_up] answers [False] exactly when the GET raises an
    instance of [requests.exceptions.ConnectionError], answers [True]
    whenever the request completes, whatever the status code, and lets any
    other exception propagate. *)
Theorem server_is_up_spec (get : string → list (string * Z) → Requests.get_outcome) :
  let outcome := get "http://127.0.0.1:5001/" [("input", 1%Z)] in
  (server_is_up get = Returns false ↔
     ∃ e, outcome = Raises e ∧ isinstance e Requests.ConnectionError = true) ∧
  (∀ code, outcome = Returns {| Requests.status_code := code |} →
     server_is_up get = Returns true) ∧
  (∀ e, outcome = Raises e → isinstance e Requests.ConnectionError = false →
     server_is_up get = Raises e).
Proof.
  intros outcome. unfold server_is_up. fold outcome.
  repeat split.
  - destruct outcome as [resp|e|]; try discriminate.
    destruct (isinstance e Requests.ConnectionError) eqn:He; try discriminate.
    intros _. by exists e.
  - intros (e & -> & ->). reflexivity.
  - by intros code ->.
  - by intros e -> ->.
Qed.

Lemma server_is_up_spec_witness :
  server_is_up (λ _ _, Raises ConnectionRefused) = Returns false ∧
  server_is_up (λ _ _, Returns {| Requests.status_code := 500 |}) = Returns true ∧
  server_is_up (λ _ _, Raises ReadTimeout) = Raises ReadTimeout.
Proof.
  pose proof (server_is_up_spec (λ _ _, Raises ConnectionRefused)) as (H1 & _ & _).
  pose proof (server_is_up_spec (λ _ _, Returns {| Requests.status_code := 500 |}))
    as (_ & H2 & _).
  pose proof (server_is_up_spec (λ _ _, Raises ReadTimeout)) as (_ & _ & H3).
  split; [|split].
  - apply H1. exists ConnectionRefused. split; reflexivity.
  - apply (H2 500%Z). reflexivity.
  - apply (H3 ReadTimeout); reflexivity.
Defined.

(** ** The generators *)

Section Generators.
Context {W : Type} (os : OS W).

Lemma update_counts_set (d : environ) :
  counts_set d ({[ "NUM_TESTS" := str NUM_TESTS;
                   "NUM_REQUESTS" := str NUM_REQUESTS ]} ∪ d).
Proof.
  split; [|split].
  - apply lookup_union_Some_l. reflexivity.
  - apply lookup_union_Some_l. reflexivity.
  - intros k H1 H2. apply lookup_union_r.
    rewrite lookup_insert_ne by done. by rewrite lookup_singleton_ne.
Qed.

Lemma tester_updates_in_place (args : list string) :
  updates_in_place os
    (λ env,
       dict_update env {[ "NUM_TESTS" := str NUM_TESTS;
                          "NUM_REQUESTS" := str NUM_REQUESTS ]};;
       Subtask os args env None) args.
Proof.
  intros env d [ds nl nh w0 lg] Hd. cbn [dicts] in Hd.
  set (d' := ({[ "NUM_TESTS" := str NUM_TESTS;
                 "NUM_REQUESTS" := str NUM_REQUESTS ]} ∪ d : environ)).
  cbn [next_handle world dicts next_loc log].
  destruct (os_subtask os nh args d' None w0) as [rep w] eqn:E.
  exists d', rep, w. split; [apply update_counts_set|]. split; [done|].
  assert (Halter : alter (λ d0 : environ,
              {[ "NUM_TESTS" := str NUM_TESTS;
                 "NUM_REQUESTS" := str NUM_REQUESTS ]} ∪ d0) env ds
          = <[env := d']> ds).
  { apply map_eq. intros l. destruct (decide (env = l)) as [<-|Hne].
    - rewrite lookup_alter_eq, lookup_insert_eq, Hd. reflexivity.
    - by rewrite lookup_alter_ne, lookup_insert_ne. }
  run_monad.
  rewrite Halter, lookup_insert_eq. fold d'. rewrite E.
  destruct rep as [[]|e|]; reflexivity.
Qed.

(** C9: [pytest_tester] and [jest_tester] change the caller's mapping in
    place: after the call the very object passed as [env] holds
    [NUM_TESTS = "100"] and [NUM_REQUESTS = "50"] (overwritten when
    present) next to its other keys; no other object of the store changes
    and none is created; the process receives the changed mapping. *)
Theorem testers_mutate_env_in_place :
  updates_in_place os (pytest_tester os) ["poetry"; "run"; "pytest"] ∧
  updates_in_place os (jest_tester os) ["npm"; "run"; "test"].
Proof. split; apply tester_updates_in_place. Qed.

Lemma Subtask_run args env wait_for (m : machine W) :
  Subtask os args env wait_for m =
  spawned os args (dict_contents env m) wait_for (dicts m) (next_loc m)
          (next_handle m) (world m) (log m).
Proof.
  destruct m as [ds nl nh w0 lg]. unfold spawned. run_monad.
  destruct (os_subtask os nh args _ wait_for w0) as [[[]|e|] w]; reflexivity.
Qed.

Ltac generator :=
  intros [ds nl nh w0 lg]; eexists _, _, _, _;
  cbv beta iota zeta delta
    [server tester func_call
     flask_jsonify flask_json_lib express pytest_flask_testing
     pytest_real_request_post pytest_real_request_get jest_fetch_post
     jest_sync_request_post jest_sync_request_curl_post jest_light_my_request
     jest_fetch_get jest_sync_request_get jest_sync_request_curl_get
     flask_server express_server pytest_tester jest_tester
     mbind M_bind new_dict dict_update dicts next_loc next_handle world log];
  rewrite Subtask_run; reflexivity.

Lemma variants_are_generators :
  Forall (λ v, is_generator os (Some ServerIsUp) (server v) ∧
               is_generator os None (tester v)) (variants os).
Proof.
  unfold variants. cbn [mbind list_bind mret list_ret app].
  repeat (constructor; [split; generator|]).
  constructor.
Qed.

Lemma variant_generators (v : Variation W) :
  v ∈ variants os →
  is_generator os (Some ServerIsUp) (server v) ∧ is_generator os None (tester v).
Proof.
  intros Hv. exact (proj1 (Forall_forall _ _) variants_are_generators v Hv).
Qed.

End Generators.

(** ** Order of events *)

Lemma scan_mono P Q (s1 s2 : Prop) evs :
  (s1 → s2) → scan P Q s1 evs → scan P Q s2 evs.
Proof.
  revert s1 s2. induction evs as [|e evs IH]; intros s1 s2 Hs; [done|].
  cbn. intros [H1 H2]. split; [tauto|]. eapply IH; [|exact H2]. tauto.
Qed.

Lemma scan_app P Q seen l1 l2 :
  scan P Q seen l1 → scan P Q (seen ∨ Exists P l1) l2 →
  scan P Q seen (l1 ++ l2).
Proof.
  revert seen. induction l1 as [|e l1 IH]; intros seen H1 H2; cbn.
  - eapply scan_mono; [|exact H2]. intros [?|H]; [done|by inversion H].
  - destruct H1 as [Hq H1]. split; [done|]. apply IH; [done|].
    eapply scan_mono; [|exact H2]. rewrite Exists_cons. tauto.
Qed.

Lemma scan_none P Q seen evs :
  Forall (λ e, ¬ Q e) evs → scan P Q seen evs.
Proof.
  revert seen. induction evs as [|e evs IH]; intros seen H; [done|].
  inversion H; subst. cbn. split; [tauto|]. by apply IH.
Qed.

Lemma scan_precedes P Q evs : scan P Q False evs → precedes P Q evs.
Proof.
  assert (Hgen : ∀ evs seen, scan P Q seen evs →
            ∀ i e, evs !! i = Some e → Q e →
              seen ∨ ∃ j e', j < i ∧ evs !! j = Some e' ∧ P e').
  { clear evs. induction evs as [|e0 evs IH]; intros seen Hs i e Hi Hq; [done|].
    destruct Hs as [H0 Hs]. destruct i as [|i]; cbn in Hi.
    - inversion Hi; subst. left. tauto.
    - destruct (IH _ Hs i e Hi Hq) as [[?|Hp]|(j & e' & Hj & He' & Hp)].
      + by left.
      + right. exists 0, e0. split; [lia|done].
      + right. exists (S j), e'. split; [lia|done]. }
  intros Hs i e Hi Hq. destruct (Hgen evs False Hs i e Hi Hq) as [[]|H]. exact H.
Qed.

Lemma count_app p l1 l2 : count p (l1 ++ l2) = count p l1 + count p l2.
Proof. unfold count. by rewrite List.filter_app, length_app. Qed.

Lemma count_none p evs : Forall (λ e, p e = false) evs → count p evs = 0.
Proof.
  unfold count. induction 1 as [|e evs He _ IH]; [done|]. cbn. by rewrite He.
Qed.

(** ** One pairing *)

Section Pairing.
Context {W : Type} {arith : FloatArith} (os : OS W) (argv : list string).

Lemma appends_refl (m : machine W) : appends m m [].
Proof. unfold appends. by rewrite app_nil_r. Qed.

Lemma waited_prefix ht r pre evs :
  Forall (waiting_event ht) pre →
  Forall (λ e, ¬ interrupts ht e) pre →
  waited ht r evs → waited ht r (pre ++ evs).
Proof.
  intros Hpre Hno [Hall Hr]. split; [by apply Forall_app|].
  destruct r as [[|]| | |]; try done.
  - destruct Hr as (evs0 & -> & H0). exists (pre ++ evs0).
    split; [by rewrite app_assoc|by apply Forall_app].
  - destruct Hr as [(evs0 & e & -> & He) H0]. split.
    + exists (pre ++ evs0), e. by rewrite app_assoc.
    + by apply Forall_app.
Qed.

(** Close a case of a symbolic run: the run ended with the events just
    appended to the log. *)
Ltac ended H :=
  inversion H; subst; clear H;
  eexists; split;
  [ unfold appends; cbn [log dicts next_loc next_handle];
    rewrite <- ?app_assoc; cbn [app]; repeat split; reflexivity
  | ].

Lemma progress_loop_waited fuel (s t : function W) ht start m r m' :
  progress_loop os fuel s t ht start m = (r, m') →
  ∃ evs, appends m m' evs ∧ waited ht r evs.
Proof.
  revert m. induction fuel as [|fuel IH]; intros [ds nl nh w0 lg] H.
  - cbn in H. inversion H; subst. exists []. split; [apply appends_refl|by split].
  - cbn [progress_loop] in H. run_monad_in H.
    os_case H.
    + ended H. split; [repeat constructor|]. split.
      * by eexists [], _.
      * repeat constructor. cbn. tauto.
    + os_case H.
      * if_case H.
        -- os_case H.
           ++ ended H. split; [repeat constructor|].
              eexists [_; _]. split; [reflexivity|]. repeat constructor; cbn; tauto.
           ++ ended H. split; [repeat constructor|done].
           ++ ended H. split; [repeat constructor|done].
        -- apply IH in H as (evs & (Hlog & Hd & Hl & Hh) & Hw).
           cbn [log dicts next_loc next_handle] in *.
           eexists. split.
           { unfold appends; cbn [log dicts next_loc next_handle].
             rewrite Hlog. rewrite <- !app_assoc. cbn [app]. repeat split; done. }
           apply (waited_prefix ht r [_; _; _]); [| |done];
             repeat constructor; cbn; tauto.
      * ended H. split; [repeat constructor|done].
      * ended H. split; [repeat constructor|done].
    + ended H. split; [repeat constructor|done].
    + ended H. split; [repeat constructor|done].
Qed.

(** [waited] on an explicit list of events. *)
Ltac explicit_waited :=
  split; [repeat constructor|];
  first
    [ done
    | first
        [ eexists []; split; [reflexivity|]
        | eexists [_]; split; [reflexivity|]
        | eexists [_; _]; split; [reflexivity|]
        | eexists [_; _; _]; split; [reflexivity|] ];
      repeat constructor; cbn; tauto
    | split;
      [ first
          [ eexists [], _; split; [reflexivity|done]
          | eexists [_], _; split; [reflexivity|done]
          | eexists [_; _], _; split; [reflexivity|done] ]
      | repeat constructor; cbn; tauto ] ].

Lemma silent_wait_waited ht m r m' :
  silent_wait os ht m = (r, m') →
  ∃ evs, appends m m' evs ∧ waited ht r evs.
Proof.
  destruct m as [ds nl nh w0 lg]. intros H. unfold silent_wait in H.
  run_monad_in H.
  os_case H.
  - destruct z as [|p|p]; run_monad_in H.
    + ended H; explicit_waited.
    + os_case H; [| os_case H | |]; ended H; explicit_waited.
    + os_case H; [| os_case H | |]; ended H; explicit_waited.
  - os_case H; [| os_case H | |]; ended H; explicit_waited.
  - ended H; explicit_waited.
  - ended H; explicit_waited.
Qed.

(** What a generator's call leaves: see [spawned]. *)
Lemma generator_run wait_for (f : function W) m r m' :
  is_generator os wait_for f → func_call f m = (r, m') →
  ∃ args d rep w,
    os_subtask os (next_handle m) args d wait_for (world m) = (rep, w) ∧
    r = constructed rep (next_handle m) ∧
    log m' = log m ++ [ESubtask (next_handle m) args d wait_for rep] ∧
    next_handle m' = S (next_handle m) ∧
    world m' = w.
Proof.
  intros Hf H. destruct (Hf m) as (args & d & ds & nl & Hrun).
  rewrite Hrun in H. unfold spawned in H.
  destruct (os_subtask os (next_handle m) args d wait_for (world m))
    as [rep w] eqn:E.
  inversion H; subst. by exists args, d, rep, w.
Qed.

(** The second part of the body when it completes: the four calls of the
    teardown returned one after the other, then the row is chosen. *)
Lemma teardown_and_report_ok v hs start ht (timeout : bool) m m' :
  teardown_and_report os v hs start ht timeout m = (Ok tt, m') →
  ∃ now r1 w1 w2 w3 w4,
    os_perf_counter os (world m) = (Returns now, w1) ∧
    os_interrupt os hs w1 = (Returns tt, w2) ∧
    os_wait os hs (Some 1%Q) w2 = (Returns r1, w3) ∧
    os_kill os hs w3 = (Returns tt, w4) ∧
    if timeout then
      world m' = w4 ∧
      log m' = log m ++ teardown_events hs now r1
               ++ [row v (DurStr "Timeout (120 s)")]
    else
      ∃ st w5,
        os_wait os ht None w4 = (Returns st, w5) ∧
        world m' = w5 ∧
        log m' = log m ++ teardown_events hs now r1
                 ++ [EWait ht None (Returns st);
                     row v (if ne_zero st then DurStr "Error"
                            else DurFloat (float_sub now start))].
Proof.
  destruct m as [ds nl nh w0 lg]. intros H. unfold teardown_and_report in H.
  cbn [world log]. run_monad_in H.
  do 4 (os_case H; try discriminate).
  all: eexists _, _, _, _, _, _; do 4 (split; [first [eassumption|reflexivity]|]).
  all: destruct timeout; run_monad_in H.
  all: try (inversion H; subst; clear H; cbn [world log];
            split; [reflexivity|]; unfold teardown_events, row;
            rewrite <- !app_assoc; reflexivity).
  all: os_case H; try discriminate.
  all: try (match type of H with
            | context [match ?z with 0%Z => _ | _ => _ end] => destruct z
            end; run_monad_in H).
  all: eexists _, _; (split; [first [eassumption|reflexivity]|]).
  all: inversion H; subst; clear H; cbn [world log].
  all: split; [reflexivity|]; unfold teardown_events, row.
  all: rewrite <- !app_assoc; reflexivity.
Qed.

(** The second part of the body, however it ends: it issues closing
    events only, a kill only after the interrupt has returned, and a row
    exactly when it completes. *)
Lemma teardown_and_report_log v hs start ht timeout m r m' :
  teardown_and_report os v hs start ht timeout m = (r, m') →
  ∃ evs, appends m m' evs ∧
         Forall (closing_event hs ht) evs ∧
         scan (interrupted hs) (kills hs) False evs ∧
         count is_row evs = match r with Ok _ => 1 | _ => 0 end ∧
         ∃ rep, head evs = Some (EPerfCounter rep).
Proof.
  destruct m as [ds nl nh w0 lg]. intros H. unfold teardown_and_report in H.
  run_monad_in H.
  run_to_end H.
  all: ended H.
  all: split; [repeat constructor|].
  all: split; [cbn; tauto|].
  all: split; [reflexivity|by eexists].
Qed.

Lemma bind_inv {A B} (c : M W A) (k : A → M W B) m r m' :
  (c ≫= k) m = (r, m') →
  ∃ ra m1, c m = (ra, m1) ∧
    match ra with
    | Ok a => k a m1 = (r, m')
    | _ => m' = m1 ∧ carried ra r
    end.
Proof.
  unfold mbind, M_bind. destruct (c m) as [[a|e| |] m1]; intros H.
  - by exists (Ok a), m1.
  - inversion H; subst. by exists (Raise e), m'.
  - inversion H; subst. by exists Block, m'.
  - inversion H; subst. by exists OutOfFuel, m'.
Qed.

Lemma bind_ok {A B} (c : M W A) (k : A → M W B) m a m1 :
  c m = (Ok a, m1) → (c ≫= k) m = k a m1.
Proof. unfold mbind, M_bind. by intros ->. Qed.

(** *** The first part of the body *)

Lemma start_and_wait_log fuel (v : Variation W) m r m' :
  is_generator os (Some ServerIsUp) (server v) →
  is_generator os None (tester v) →
  start_and_wait os argv fuel v m = (r, m') →
  ∃ pre waiting,
    log m' = log m ++ pre ++ waiting ∧
    start_events (next_handle m) (S (next_handle m)) pre ∧
    Forall (waiting_event (S (next_handle m))) waiting ∧
    match r with
    | Ok (server_proc, start_time, tester_proc, timeout) =>
        server_proc = next_handle m ∧ tester_proc = S (next_handle m) ∧
        both_started server_proc tester_proc start_time pre ∧
        waited tester_proc (Ok timeout) waiting
    | _ => True
    end.
Proof.
  intros Hs Ht H. unfold start_and_wait in H.
  apply bind_inv in H as (r1 & m1 & H1 & H).
  apply (generator_run _ _ _ _ _ Hs) in H1
    as (a & d & rep & w & _ & -> & Hlog1 & Hnh1 & _).
  destruct rep as [[]|e|]; cbn [constructed] in H;
    [|destruct H as [-> Hr]; destruct r; try done;
      eexists _, []; rewrite Hlog1, app_nil_r;
      (split; [reflexivity|]); repeat split; constructor..].
  apply bind_inv in H as (r2 & m2 & H2 & H).
  destruct m1 as [ds1 nl1 nh1 w1 lg1]. cbn [log next_handle] in *. subst nh1 lg1.
  unfold perf_counter, perform in H2. cbn [world] in H2.
  destruct (os_perf_counter os w1) as [[start|e|] w2]; inversion H2; subst; clear H2;
    [|destruct H as [-> Hr]; destruct r; try done;
      eexists _, []; cbn [emit set_world log]; rewrite app_nil_r, <- app_assoc;
      (split; [reflexivity|]); repeat split; constructor..].
  apply bind_inv in H as (r3 & m3 & H3 & H).
  apply (generator_run _ _ _ _ _ Ht) in H3
    as (a' & d' & rep & w' & _ & -> & Hlog3 & Hnh3 & _).
  cbn [emit set_world log next_handle] in *.
  destruct rep as [[]|e|]; cbn [constructed] in H;
    [|destruct H as [-> Hr]; destruct r; try done;
      eexists _, []; rewrite Hlog3, app_nil_r, <- !app_assoc;
      (split; [reflexivity|]); repeat split; constructor..].
  apply bind_inv in H as (r4 & m4 & H4 & H).
  assert (Hw : ∃ waiting, log m4 = log m3 ++ waiting ∧
                          waited (S (next_handle m)) r4 waiting).
  { destruct (bool_decide ("--progress" ∈ argv)).
    - apply progress_loop_waited in H4 as (evs & (? & _) & ?). by exists evs.
    - apply silent_wait_waited in H4 as (evs & (? & _) & ?). by exists evs. }
  destruct Hw as (waiting & Hlog4 & Hw).
  eexists [_; _; _], waiting.
  assert (Hlog : log m4 = log m ++
            [ESubtask (next_handle m) a d (Some ServerIsUp) (Returns tt);
             EPerfCounter (Returns start);
             ESubtask (S (next_handle m)) a' d' None (Returns tt)] ++ waiting)
    by (by rewrite Hlog4, Hlog3, <- !app_assoc).
  destruct r4 as [timeout|e| |].
  - inversion H; subst; clear H.
    split; [exact Hlog|]. split; [constructor|]. split; [apply Hw|].
    split; [done|]. split; [done|]. split; [by eexists _, _, _, _|done].
  - destruct H as [-> Hr]. destruct r; try done.
    split; [exact Hlog|]. split; [constructor|]. split; [apply Hw|done].
  - destruct H as [-> Hr]. destruct r; try done.
    split; [exact Hlog|]. split; [constructor|]. split; [apply Hw|done].
  - destruct H as [-> Hr]. destruct r; try done.
    split; [exact Hlog|]. split; [constructor|]. split; [apply Hw|done].
Qed.

(** *** The whole body *)

Lemma waited_over ht timeout waiting :
  waited ht (Ok timeout) waiting → Exists (tester_over ht) waiting.
Proof.
  intros [_ H]. destruct timeout.
  - destruct H as (evs0 & -> & _). apply Exists_app. right.
    constructor. by right.
  - destruct H as [(evs0 & e & -> & He) _]. apply Exists_app. right.
    constructor. by left.
Qed.

(** The events of one iteration, however it ends: the start, the wait on
    the tester, then the closing events, which begin only when the first
    part has completed. *)
Lemma main_iteration_parts fuel (v : Variation W) m r m' :
  is_generator os (Some ServerIsUp) (server v) →
  is_generator os None (tester v) →
  main_iteration os argv fuel v m = (r, m') →
  ∃ pre waiting closing,
    log m' = log m ++ pre ++ waiting ++ closing ∧
    start_events (next_handle m) (S (next_handle m)) pre ∧
    Forall (waiting_event (S (next_handle m))) waiting ∧
    Forall (closing_event (next_handle m) (S (next_handle m))) closing ∧
    scan (interrupted (next_handle m)) (kills (next_handle m)) False closing ∧
    count is_row closing = match r with Ok _ => 1 | _ => 0 end ∧
    (closing ≠ [] → Exists (tester_over (S (next_handle m))) waiting).
Proof.
  intros Hs Ht H. unfold main_iteration in H.
  apply bind_inv in H as (r1 & m1 & H1 & H).
  apply (start_and_wait_log _ _ _ _ _ Hs Ht) in H1
    as (pre & waiting & Hlog & Hpre & Hwaiting & Hr1).
  destruct r1 as [[[[hs start] ht] timeout]|e| |].
  - destruct Hr1 as (-> & -> & _ & Hw).
    apply teardown_and_report_log in H
      as (closing & (Hlog2 & _) & Hclosing & Hscan & Hrows & _).
    exists pre, waiting, closing. rewrite Hlog2, Hlog, <- !app_assoc.
    repeat split; try done. intros _. by eapply waited_over.
  - destruct H as [-> Hr]. destruct r; try done.
    exists pre, waiting, []. rewrite app_nil_r. repeat split; try done.
  - destruct H as [-> Hr]. destruct r; try done.
    exists pre, waiting, []. rewrite app_nil_r. repeat split; try done.
  - destruct H as [-> Hr]. destruct r; try done.
    exists pre, waiting, []. rewrite app_nil_r. repeat split; try done.
Qed.

(** The log of an iteration that completes. *)
Lemma main_iteration_ok fuel (v : Variation W) m m' :
  is_generator os (Some ServerIsUp) (server v) →
  is_generator os None (tester v) →
  main_iteration os argv fuel v m = (Ok tt, m') →
  ∃ pre start waiting timeout now r1 final m1,
    start_and_wait os argv fuel v m =
      (Ok (next_handle m, start, S (next_handle m), timeout), m1) ∧
    log m1 = log m ++ pre ++ waiting ∧
    log m' = log m1 ++ teardown_events (next_handle m) now r1 ++ final ∧
    both_started (next_handle m) (S (next_handle m)) start pre ∧
    waited (S (next_handle m)) (Ok timeout) waiting ∧
    reported v (S (next_handle m)) timeout (float_sub now start) final.
Proof.
  intros Hs Ht H. unfold main_iteration in H.
  apply bind_inv in H as (r1 & m1 & H1 & H).
  pose proof H1 as H1'.
  apply (start_and_wait_log _ _ _ _ _ Hs Ht) in H1
    as (pre & waiting & Hlog & Hpre & Hwaiting & Hr1).
  destruct r1 as [[[[hs start] ht] timeout]|e| |]; try (by destruct H).
  destruct Hr1 as (-> & -> & Hboth & Hw).
  apply teardown_and_report_ok in H
    as (now & r1 & w1 & w2 & w3 & w4 & _ & _ & _ & _ & H).
  exists pre, start, waiting, timeout, now, r1.
  destruct timeout.
  - destruct H as [_ H]. eexists _, m1.
    split; [done|]. split; [done|]. split; [exact H|]. by split.
  - destruct H as (st & w5 & _ & _ & H). eexists _, m1.
    split; [done|]. split; [done|]. split; [exact H|].
    split; [done|]. split; [done|]. by exists st.
Qed.

(** *** The report *)

(** C1: the row of a completed pairing follows the priority order: with
    the [timeout] flag set it is [Timeout (TEST_TIMEOUT s)]; otherwise
    the tester's exit status is read by the final un-timed [wait()], and
    the row is [Error] when that status is not [0], the duration
    otherwise. *)
Theorem outcome_priority fuel (v : Variation W) m m' :
  main_iteration os argv fuel v m = (Ok tt, m') →
  ∃ server_proc start_time tester_proc timeout m1 now r1,
    start_and_wait os argv fuel v m =
      (Ok (server_proc, start_time, tester_proc, timeout), m1) ∧
    if timeout then
      log m' = log m1 ++ teardown_events server_proc now r1
               ++ [row v (DurStr ("Timeout (" +:+ str TEST_TIMEOUT +:+ " s)"))]
    else
      ∃ st outcome,
        log m' = log m1 ++ teardown_events server_proc now r1
                 ++ [EWait tester_proc None (Returns st); row v outcome] ∧
        (st ≠ Some 0%Z → outcome = DurStr "Error") ∧
        (st = Some 0%Z → outcome = DurFloat (float_sub now start_time)).
Proof.
  intros H. unfold main_iteration in H.
  apply bind_inv in H as (r1 & m1 & H1 & H).
  destruct r1 as [[[[hs start] ht] timeout]|e| |]; try (by destruct H).
  apply teardown_and_report_ok in H
    as (now & r1 & w1 & w2 & w3 & w4 & _ & _ & _ & _ & H).
  exists hs, start, ht, timeout, m1, now, r1. split; [done|].
  destruct timeout.
  - by destruct H as [_ H].
  - destruct H as (st & w5 & _ & _ & H). eexists st, _. split; [exact H|].
    split.
    + intros Hst. destruct st as [[| |]|]; done.
    + by intros ->.
Qed.

(** C7: in a completed pairing the start timestamp is the clock reading
    taken after the server's constructor (with its readiness wait) has
    returned and before the tester's constructor is called; the final
    reading [now] is the first call after the wait on the tester; and a
    printed duration is [now - start], as the floats subtract. *)
Theorem duration_from_start_timestamp fuel (v : Variation W) m m' :
  v ∈ variants os →
  main_iteration os argv fuel v m = (Ok tt, m') →
  ∃ pre start waiting timeout now r1 final,
    log m' = log m ++ pre ++ waiting
             ++ teardown_events (next_handle m) now r1 ++ final ∧
    both_started (next_handle m) (S (next_handle m)) start pre ∧
    Forall (waiting_event (S (next_handle m))) waiting ∧
    reported v (S (next_handle m)) timeout (float_sub now start) final.
Proof.
  intros Hv H. destruct (variant_generators os v Hv) as [Hs Ht].
  apply (main_iteration_ok _ _ _ _ Hs Ht) in H
    as (pre & start & waiting & timeout & now & r1 & final & m1
        & _ & Hlog1 & Hlog & Hboth & Hw & Hrep).
  exists pre, start, waiting, timeout, now, r1, final.
  split; [by rewrite Hlog, Hlog1, <- !app_assoc|]. split; [done|].
  split; [apply Hw|done].
Qed.

(** *** Order *)

Lemma scan_seen P Q (seen : Prop) evs : seen → scan P Q seen evs.
Proof.
  revert seen. induction evs as [|e evs IH]; intros seen H; [done|].
  cbn. split; [done|]. apply IH. by left.
Qed.

(** The calls of a completed pairing, one after the other. *)
Lemma completed_in_order hs ht start pre waiting timeout now r1 final :
  both_started hs ht start pre →
  waited ht (Ok timeout) waiting →
  in_order [started hs; started ht; tester_over ht; interrupted hs; killed hs]
    (pre ++ waiting ++ teardown_events hs now r1 ++ final).
Proof.
  intros (a & d & a' & d' & ->) Hw.
  apply waited_over, Exists_exists in Hw as (e & He & Hover).
  apply list_elem_of_split in He as (l1 & l2 & ->).
  cbn [in_order].
  eexists [], _, _. split; [reflexivity|]. split; [done|].
  eexists [_], _, _. split; [reflexivity|]. split; [done|].
  exists l1, e, (l2 ++ teardown_events hs now r1 ++ final).
  split; [by rewrite <- app_assoc|]. split; [done|].
  eexists (l2 ++ [_]), _, _. split; [by rewrite <- app_assoc|]. split; [done|].
  eexists [_], _, final. split; [reflexivity|]. by split.
Qed.

(** C8: within every pairing, however it ends, the tester's constructor
    is called only after the server's has returned; the server's
    interrupt is issued only after the tester was seen to complete or to
    time out; and the server's kill is issued only after its interrupt
    has returned.  A pairing that completes has gone through all of it:
    the server's constructor has returned, then the tester's, then the
    tester was seen to complete or to time out, then the server's
    interrupt has returned, then its kill. *)
Theorem pairing_order fuel (v : Variation W) m r m' :
  v ∈ variants os →
  main_iteration os argv fuel v m = (r, m') →
  ∃ evs, log m' = log m ++ evs ∧
    precedes (started (next_handle m)) (starts (S (next_handle m))) evs ∧
    precedes (tester_over (S (next_handle m))) (interrupts (next_handle m)) evs ∧
    precedes (interrupted (next_handle m)) (kills (next_handle m)) evs ∧
    (r = Ok tt →
     in_order [started (next_handle m); started (S (next_handle m));
               tester_over (S (next_handle m));
               interrupted (next_handle m); killed (next_handle m)] evs).
Proof.
  intros Hv H. destruct (variant_generators os v Hv) as [Hs Ht].
  pose proof H as Hrun.
  apply (main_iteration_parts _ _ _ _ _ Hs Ht) in H
    as (pre & waiting & closing & Hlog & Hpre & Hwaiting & Hclosing
        & Hscan & _ & Hover).
  set (hs := next_handle m) in *.
  exists (pre ++ waiting ++ closing). split; [done|].
  assert (Hne : hs ≠ S hs) by lia.
  split; [|split; [|split]]; try apply scan_precedes.
  - apply scan_app.
    + destruct Hpre; cbn; intuition.
    + apply scan_none, Forall_app. split.
      * eapply Forall_impl; [exact Hwaiting|]. by_event.
      * eapply Forall_impl; [exact Hclosing|]. by_event.
  - apply scan_app; [apply scan_none; destruct Hpre; repeat constructor; tauto|].
    apply scan_app.
    + apply scan_none. eapply Forall_impl; [exact Hwaiting|]. by_event.
    + destruct closing as [|e closing]; [done|].
      apply scan_seen. right. by apply Hover.
  - apply scan_app; [apply scan_none; destruct Hpre; repeat constructor; tauto|].
    apply scan_app.
    + apply scan_none. eapply Forall_impl; [exact Hwaiting|]. by_event.
    + eapply scan_mono; [|exact Hscan]. tauto.
  - intros ->.
    apply (main_iteration_ok _ _ _ _ Hs Ht) in Hrun
      as (pre' & start & waiting' & timeout & now & r1 & final & m1
          & _ & Hlog1 & Hlog' & Hboth & Hw & _).
    rewrite Hlog1, Hlog, <- !app_assoc in Hlog'.
    apply app_inv_head in Hlog'. rewrite Hlog'.
    by apply (completed_in_order _ _ start _ _ timeout).
Qed.

(** *** The final wait *)

Lemma none_after_never P Q evs : none_after P Q evs → never_after P Q evs.
Proof.
  induction evs as [|e0 evs IH]; intros H i j e e' Hij Hi Hj Hp; [done|].
  destruct H as [H0 H]. destruct j as [|j]; [lia|]. cbn in Hj.
  destruct i as [|i]; cbn in Hi.
  - inversion Hi; subst.
    exact (proj1 (Forall_forall _ _) (H0 Hp) e' (list_elem_of_lookup_2 _ _ _ Hj)).
  - apply (IH H i j e e'); [lia|done..].
Qed.

Lemma none_after_app P Q l1 l2 :
  none_after P Q l1 → none_after P Q l2 →
  (Exists P l1 → Forall (λ e, ¬ Q e) l2) →
  none_after P Q (l1 ++ l2).
Proof.
  induction l1 as [|e l1 IH]; intros H1 H2 H; [done|].
  destruct H1 as [H0 H1]. cbn. split.
  - intros Hp. apply Forall_app. split; [by apply H0|].
    apply H. by constructor.
  - apply IH; [done..|]. intros Hex. apply H. by apply Exists_cons_tl.
Qed.

Lemma none_after_absent P Q evs :
  Forall (λ e, ¬ P e) evs → none_after P Q evs.
Proof.
  induction 1 as [|e evs He _ IH]; [done|]. cbn. split; [tauto|done].
Qed.

Lemma none_after_clear P Q evs :
  Forall (λ e, ¬ Q e) evs → none_after P Q evs.
Proof.
  induction 1 as [|e evs He Hall IH]; [done|]. cbn. split; [tauto|done].
Qed.

Lemma Forall_not_Exists (P : event → Prop) evs :
  Forall (λ e, ¬ P e) evs → ¬ Exists P evs.
Proof.
  induction 1 as [|e evs He _ IH]; intros Hex; inversion Hex; subst; tauto.
Qed.

Lemma start_events_quiet hs ht (P : event → Prop) pre :
  start_events hs ht pre →
  (∀ h a d f r, ¬ P (ESubtask h a d f r)) → (∀ r, ¬ P (EPerfCounter r)) →
  Forall (λ e, ¬ P e) pre.
Proof. intros [] H1 H2; repeat constructor; auto. Qed.

Lemma both_started_events hs ht start pre :
  both_started hs ht start pre → start_events hs ht pre.
Proof. intros (a & d & a' & d' & ->). constructor. Qed.

(** The amended C5: in a completed pairing the final un-timed [wait()]
    on the tester is issued exactly when no interrupt was sent to the
    tester, that is when the pairing was not marked timed out; after the
    interrupt of a timed-out tester no wait of any kind is issued on it. *)
Theorem final_wait_unless_timed_out fuel (v : Variation W) m m' :
  v ∈ variants os →
  main_iteration os argv fuel v m = (Ok tt, m') →
  ∃ evs, log m' = log m ++ evs ∧
    (Exists (untimed_wait (S (next_handle m))) evs ↔
     ¬ Exists (interrupts (S (next_handle m))) evs) ∧
    never_after (interrupts (S (next_handle m))) (waits_on (S (next_handle m))) evs.
Proof.
  intros Hv H. destruct (variant_generators os v Hv) as [Hs Ht].
  apply (main_iteration_ok _ _ _ _ Hs Ht) in H
    as (pre & start & waiting & timeout & now & r1 & final & m1
        & _ & Hlog1 & Hlog & Hboth & [Hwaiting Hw] & Hrep).
  apply both_started_events in Hboth.
  set (hs := next_handle m) in *. set (ht := S hs) in *.
  assert (Hne : hs ≠ ht) by (unfold ht; lia).
  exists (pre ++ waiting ++ teardown_events hs now r1 ++ final).
  split; [by rewrite Hlog, Hlog1, <- !app_assoc|].
  assert (Hpre_i : Forall (λ e, ¬ interrupts ht e) pre)
    by (apply (start_events_quiet hs ht (interrupts ht) pre Hboth);
        intros; cbn; tauto).
  assert (Hpre_u : Forall (λ e, ¬ untimed_wait ht e) pre)
    by (apply (start_events_quiet hs ht (untimed_wait ht) pre Hboth);
        intros; cbn; tauto).
  assert (Hwaiting_u : Forall (λ e, ¬ untimed_wait ht e) waiting)
    by (eapply Forall_impl; [exact Hwaiting|by_event]).
  assert (Htd_i : Forall (λ e, ¬ interrupts ht e) (teardown_events hs now r1))
    by (repeat constructor; cbn; tauto).
  assert (Htd_w : Forall (λ e, ¬ waits_on ht e) (teardown_events hs now r1))
    by (repeat constructor; cbn; tauto).
  destruct timeout; cbn in Hrep.
  - destruct Hw as (evs0 & -> & Hevs0). subst final. split.
    + split.
      * intros Hex. exfalso. revert Hex. apply Forall_not_Exists.
        apply Forall_app; split; [exact Hpre_u|].
        apply Forall_app; split; [exact Hwaiting_u|].
        apply Forall_app; split.
        -- eapply Forall_impl; [exact Htd_w|]. by_event.
        -- repeat constructor; unfold row; cbn; tauto.
      * intros Hno. exfalso. apply Hno. apply Exists_app. right.
        apply Exists_app. left. apply Exists_app. right. by constructor.
    + apply none_after_never.
      apply none_after_app; [by apply none_after_absent| |].
      * apply none_after_app.
        -- apply none_after_app; [by apply none_after_absent| |].
           ++ cbn. split; [by constructor|done].
           ++ intros Hex. exfalso. revert Hex. by apply Forall_not_Exists.
        -- apply none_after_clear, Forall_app. split; [done|].
           repeat constructor; unfold row; cbn; tauto.
        -- intros _. apply Forall_app. split; [done|].
           repeat constructor; unfold row; cbn; tauto.
      * intros Hex. exfalso. revert Hex. by apply Forall_not_Exists.
  - destruct Hw as [_ Hno]. destruct Hrep as (st & ->).
    assert (Hall : Forall (λ e, ¬ interrupts ht e)
              (pre ++ waiting ++ teardown_events hs now r1
               ++ [EWait ht None (Returns st);
                   row v (if ne_zero st then DurStr "Error"
                          else DurFloat (float_sub now start))])).
    { apply Forall_app; split; [exact Hpre_i|].
      apply Forall_app; split; [exact Hno|].
      apply Forall_app; split; [exact Htd_i|].
      repeat constructor; unfold row; cbn; tauto. }
    split.
    + split; [intros _; by apply Forall_not_Exists|]. intros _.
      apply Exists_app. right. apply Exists_app. right.
      apply Exists_app. right. constructor. unfold row; cbn; tauto.
    + apply none_after_never. by apply none_after_absent.
Qed.

(** *** The teardown *)

(** Once the first part has completed, the teardown calls are issued one
    after the other for as long as each returns. *)
Lemma teardown_issued v hs start ht timeout m now w1 w2 r1 w3 rk w4 r m' :
  os_perf_counter os (world m) = (Returns now, w1) →
  os_interrupt os hs w1 = (Returns tt, w2) →
  os_wait os hs (Some 1%Q) w2 = (Returns r1, w3) →
  os_kill os hs w3 = (rk, w4) →
  teardown_and_report os v hs start ht timeout m = (r, m') →
  ∃ final,
    log m' = log m ++ [EPerfCounter (Returns now); EInterrupt hs (Returns tt);
                       EWait hs (Some 1%Q) (Returns r1); EKill hs rk] ++ final.
Proof.
  destruct m as [ds nl nh w0 lg]. cbn [world log].
  intros Hp Hi Hw Hk H. unfold teardown_and_report in H.
  run_monad_in H. rewrite Hp in H. run_monad_in H.
  rewrite Hi in H. run_monad_in H. rewrite Hw in H. run_monad_in H.
  rewrite Hk in H. destruct rk as [[]|e|]; run_monad_in H.
  - run_to_end H; inversion H; subst; clear H; cbn [log];
      rewrite <- !app_assoc; cbn [app]; by eexists.
  - inversion H; subst; clear H; cbn [log].
    rewrite <- !app_assoc; cbn [app]. by exists [].
  - inversion H; subst; clear H; cbn [log].
    rewrite <- !app_assoc; cbn [app]. by exists [].
Qed.

(** The amended C4: when the server's constructor, the clock reading,
    the tester's constructor and the wait on the tester complete, the
    teardown of the server is executed, timed out or not: interrupt,
    wait of one second, kill, each as soon as the call before it has
    returned.  When one of them raises, the iteration raises that
    exception and no teardown call is issued on the server. *)
Theorem teardown_after_completed_wait fuel (v : Variation W) m r1 m1 :
  v ∈ variants os →
  start_and_wait os argv fuel v m = (r1, m1) →
  match r1 with
  | Ok (server_proc, start_time, tester_proc, timeout) =>
      server_proc = next_handle m ∧
      ∀ now w1 w2 r w3 rk w4,
        os_perf_counter os (world m1) = (Returns now, w1) →
        os_interrupt os server_proc w1 = (Returns tt, w2) →
        os_wait os server_proc (Some 1%Q) w2 = (Returns r, w3) →
        os_kill os server_proc w3 = (rk, w4) →
        ∃ final,
          log (main_iteration os argv fuel v m).2 =
          log m1 ++ [EPerfCounter (Returns now);
                     EInterrupt server_proc (Returns tt);
                     EWait server_proc (Some 1%Q) (Returns r);
                     EKill server_proc rk] ++ final
  | Raise e =>
      main_iteration os argv fuel v m = (Raise e, m1) ∧
      ∃ evs, log m1 = log m ++ evs ∧
             Forall (λ ev, ¬ teardown_call (next_handle m) ev) evs
  | _ => True
  end.
Proof.
  intros Hv H1. destruct (variant_generators os v Hv) as [Hs Ht].
  pose proof (start_and_wait_log _ _ _ _ _ Hs Ht H1)
    as (pre & waiting & Hlog & Hpre & Hwaiting & Hr1).
  destruct r1 as [[[[hs start] ht] timeout]|e| |]; try done.
  - destruct Hr1 as (-> & -> & _). split; [done|].
    intros now w1 w2 r w3 rk w4 Hp Hi Hw Hk.
    destruct (main_iteration os argv fuel v m) as [r' m'] eqn:Hrun.
    unfold main_iteration in Hrun. rewrite (bind_ok _ _ _ _ _ H1) in Hrun.
    cbn [snd]. by eapply teardown_issued.
  - split.
    + unfold main_iteration, mbind, M_bind. by rewrite H1.
    + exists (pre ++ waiting). split; [done|]. apply Forall_app. split.
      * apply (start_events_quiet _ _ (teardown_call (next_handle m)) pre Hpre);
          intros; unfold teardown_call; cbn; tauto.
      * eapply Forall_impl; [exact Hwaiting|]. unfold teardown_call. by_event.
Qed.

(** *** Rows *)

Lemma waiting_event_plain ht e :
  waiting_event ht e → is_row e = false ∧ is_abort_notice e = false.
Proof. revert e. by_event. Qed.

Lemma closing_event_plain hs ht e :
  closing_event hs ht e → is_abort_notice e = false.
Proof. revert e. by_event. Qed.

(** An iteration prints one row when it completes and none otherwise,
    and never the abort notice. *)
Lemma main_iteration_rows fuel (v : Variation W) m r m' :
  is_generator os (Some ServerIsUp) (server v) →
  is_generator os None (tester v) →
  main_iteration os argv fuel v m = (r, m') →
  ∃ evs, log m' = log m ++ evs ∧
    count is_row evs = match r with Ok _ => 1 | _ => 0 end ∧
    count is_abort_notice evs = 0.
Proof.
  intros Hs Ht H.
  apply (main_iteration_parts _ _ _ _ _ Hs Ht) in H
    as (pre & waiting & closing & Hlog & Hpre & Hwaiting & Hclosing
        & _ & Hrows & _).
  exists (pre ++ waiting ++ closing). split; [done|].
  rewrite !count_app, Hrows.
  rewrite (count_none is_row waiting), (count_none is_abort_notice waiting),
    (count_none is_abort_notice closing).
  all: try (eapply Forall_impl;
            [exact Hwaiting|intros e He; apply waiting_event_plain in He; tauto]).
  all: try (eapply Forall_impl; [exact Hclosing|apply closing_event_plain]).
  destruct Hpre; unfold count; cbn; split; lia.
Qed.

(** The loop over the pairings: a row per pairing when it completes,
    fewer when a pairing does not. *)
Lemma for_each_rows fuel (vs : list (Variation W)) m r m' :
  Forall (λ v, is_generator os (Some ServerIsUp) (server v) ∧
               is_generator os None (tester v)) vs →
  for_each os argv fuel vs m = (r, m') →
  ∃ evs, log m' = log m ++ evs ∧
    count is_abort_notice evs = 0 ∧
    match r with
    | Ok _ => count is_row evs = length vs
    | _ => count is_row evs < length vs
    end.
Proof.
  intros Hvs. revert m. induction Hvs as [|v vs [Hs Ht] _ IH]; intros m H.
  - inversion H; subst. exists []. by rewrite app_nil_r.
  - cbn [for_each] in H. apply bind_inv in H as (r1 & m1 & H1 & H).
    apply (main_iteration_rows _ _ _ _ _ Hs Ht) in H1
      as (evs1 & Hlog1 & Hrows1 & Hn1).
    destruct r1 as [[]|e| |].
    + apply IH in H as (evs & Hlog & Hn & Hrows).
      exists (evs1 ++ evs). rewrite Hlog, Hlog1, <- app_assoc, !count_app.
      split; [done|]. split; [lia|]. rewrite Hrows1.
      destruct r; cbn [length]; lia.
    + destruct H as [-> Hr]. destruct r; try done.
      exists evs1. cbn [length]. split; [done|]. split; [done|lia].
    + destruct H as [-> Hr]. destruct r; try done.
      exists evs1. cbn [length]. split; [done|]. split; [done|lia].
    + destruct H as [-> Hr]. destruct r; try done.
      exists evs1. cbn [length]. split; [done|]. split; [done|lia].
Qed.

Lemma header_log (m : machine W) :
  ∃ m1 evs, header os m = (Ok tt, m1) ∧ log m1 = log m ++ evs ∧
    count is_row evs = 0 ∧ count is_abort_notice evs = 0.
Proof.
  destruct m as [ds nl nh w0 lg]. unfold header. run_monad.
  destruct (os_now_isoformat os w0) as [stamp w1].
  eexists _, _. split; [reflexivity|]. cbn [log].
  rewrite <- !app_assoc. cbn [app]. split; [reflexivity|]. by split.
Qed.

Lemma main_rows fuel m r m' :
  main os argv fuel m = (r, m') →
  ∃ evs, log m' = log m ++ evs ∧
    count is_abort_notice evs = 0 ∧
    match r with
    | Ok _ => count is_row evs = length (variants os)
    | _ => count is_row evs < length (variants os)
    end.
Proof.
  intros H. unfold main in H.
  destruct (header_log m) as (m1 & evs1 & Hh & Hlog1 & Hrows1 & Hn1).
  rewrite (bind_ok _ _ _ _ _ Hh) in H.
  apply for_each_rows in H as (evs & Hlog & Hn & Hrows);
    [|apply variants_are_generators].
  exists (evs1 ++ evs). rewrite Hlog, Hlog1, <- app_assoc, !count_app.
  split; [done|]. split; [lia|]. rewrite Hrows1. by destruct r.
Qed.

(** *** Where a run stops *)

Lemma ends_at_raise_carried {A B} (ra : result A) (rb : result B) evs :
  carried ra rb → ends_at_raise ra evs → ends_at_raise rb evs.
Proof. destruct ra, rb; cbn; try done. by intros ->. Qed.

Lemma ends_at_raise_after {A} (r : result A) evs1 evs2 :
  Forall (λ ev, ¬ raised ev) evs1 → ends_at_raise r evs2 →
  ends_at_raise r (evs1 ++ evs2).
Proof.
  intros H1 H2. destruct r as [a|e| |]; cbn in *; try by apply Forall_app.
  destruct H2 as (before & ev & -> & Hev & Hbefore).
  exists (evs1 ++ before), ev. rewrite app_assoc.
  split; [done|]. split; [done|]. by apply Forall_app.
Qed.

Lemma stops_ret {A} (a : A) : stops_at_raise (mret a : M W A).
Proof.
  intros m r m' E. inversion E; subst. exists []. rewrite app_nil_r.
  split; [done|]. constructor.
Qed.

Lemma stops_bind {A B} (c : M W A) (k : A → M W B) :
  stops_at_raise c → (∀ a, stops_at_raise (k a)) → stops_at_raise (c ≫= k).
Proof.
  intros Hc Hk m r m' E. apply bind_inv in E as (ra & m1 & E1 & E).
  apply Hc in E1 as (evs1 & Hlog1 & H1).
  destruct ra as [a|e| |].
  - apply Hk in E as (evs2 & Hlog2 & H2).
    exists (evs1 ++ evs2). rewrite Hlog2, Hlog1, <- app_assoc.
    split; [done|]. by apply ends_at_raise_after.
  - destruct E as [-> Hr]. exists evs1. split; [done|].
    by apply (ends_at_raise_carried (@Raise A e)).
  - destruct E as [-> Hr]. exists evs1. split; [done|].
    by apply (ends_at_raise_carried (@Block A)).
  - destruct E as [-> Hr]. exists evs1. split; [done|].
    by apply (ends_at_raise_carried (@OutOfFuel A)).
Qed.

(** A call into the environment: logged with its reply, whose exception
    it raises. *)
Lemma stops_perform {A} (op : W → reply A * W) (ev : reply A → event) :
  (∀ a, ¬ raised (ev (Returns a))) → ¬ raised (ev Blocks) →
  (∀ e, raises e (ev (Raises e))) →
  stops_at_raise (perform op ev).
Proof.
  intros Hret Hblock Hraise [ds nl nh w0 lg] r m' E.
  unfold perform in E. cbn [world] in E.
  destruct (op w0) as [[a|e|] w]; inversion E; subst; clear E;
    cbn [emit set_world log dicts next_loc next_handle];
    eexists; (split; [reflexivity|]); cbn.
  - by repeat constructor.
  - exists [], (ev (Raises e)). by repeat split.
  - by repeat constructor.
Qed.

(** A step of the interpreter that issues no call. *)
Lemma stops_silent {A} (c : M W A) :
  (∀ m, ∃ a m', c m = (Ok a, m') ∧
     ∃ evs, log m' = log m ++ evs ∧ Forall (λ ev, ¬ raised ev) evs) →
  stops_at_raise c.
Proof.
  intros Hc m r m' E. destruct (Hc m) as (a & m1 & E1 & evs & Hlog & Hevs).
  rewrite E1 in E. inversion E; subst. by exists evs.
Qed.

(** Close a goal [stops_at_raise c] for a call or a print [c]. *)
Ltac stops_call :=
  first
    [ apply stops_ret
    | apply stops_perform;
      [ intros ? [? []] | intros [? []] | intros ?; reflexivity ]
    | apply stops_silent; intros [? ? ? ? ?];
      eexists _, _; (split; [reflexivity|]);
      first [ exists []; cbn [log]; rewrite app_nil_r; split; [reflexivity|constructor]
            | eexists [_]; cbn [emit log]; split; [reflexivity|];
              constructor; [intros [? []]|constructor] ] ].

Lemma stops_perf_counter : stops_at_raise (perf_counter os).
Proof. unfold perf_counter. stops_call. Qed.
Lemma stops_wait h t : stops_at_raise (wait os h t).
Proof. unfold wait. stops_call. Qed.
Lemma stops_poll h : stops_at_raise (poll os h).
Proof. unfold poll. stops_call. Qed.
Lemma stops_interrupt h : stops_at_raise (interrupt os h).
Proof. unfold interrupt. stops_call. Qed.
Lemma stops_kill h : stops_at_raise (kill os h).
Proof. unfold kill. stops_call. Qed.
Lemma stops_print text : stops_at_raise (print (W := W) text).
Proof. unfold print. stops_call. Qed.
Lemma stops_print_output (s t : function W) d ending output c :
  stops_at_raise (print_output s t d ending output c).
Proof. unfold print_output. stops_call. Qed.

Lemma stops_generator wait_for (f : function W) :
  is_generator os wait_for f → stops_at_raise (func_call f).
Proof.
  intros Hf m r m' E.
  apply (generator_run _ _ _ _ _ Hf) in E
    as (args & d & rep & w & _ & -> & Hlog & _).
  eexists. split; [exact Hlog|]. destruct rep as [[]|e|]; cbn.
  - constructor; [intros [? []]|constructor].
  - exists [], (ESubtask (next_handle m) args d wait_for (Raises e)).
    by repeat split.
  - constructor; [intros [? []]|constructor].
Qed.

Lemma stops_progress_loop fuel (s t : function W) ht start :
  stops_at_raise (progress_loop os fuel s t ht start).
Proof.
  induction fuel as [|fuel IH].
  - intros m r m' E. inversion E; subst. exists []. rewrite app_nil_r.
    split; [done|]. constructor.
  - cbn [progress_loop]. apply stops_bind; [apply stops_wait|]. intros st.
    destruct (is_None st); [|apply stops_ret].
    apply stops_bind; [apply stops_perf_counter|]. intros now. cbv zeta.
    destruct (Qgtb _ _).
    + apply stops_bind; [apply stops_interrupt|]. intros. apply stops_ret.
    + apply stops_bind; [apply stops_print_output|]. intros. apply IH.
Qed.

Lemma stops_silent_wait ht : stops_at_raise (silent_wait os ht).
Proof.
  unfold silent_wait. apply stops_bind; [apply stops_wait|]. intros st.
  destruct (ne_zero st); [|apply stops_ret].
  apply stops_bind; [apply stops_poll|]. intros p.
  destruct (is_None p); [|apply stops_ret].
  apply stops_bind; [apply stops_interrupt|]. intros. apply stops_ret.
Qed.

Lemma stops_main_iteration fuel (v : Variation W) :
  is_generator os (Some ServerIsUp) (server v) →
  is_generator os None (tester v) →
  stops_at_raise (main_iteration os argv fuel v).
Proof.
  intros Hs Ht. unfold main_iteration. apply stops_bind.
  - unfold start_and_wait. cbv zeta.
    apply stops_bind; [by apply (stops_generator (Some ServerIsUp))|]. intros hs.
    apply stops_bind; [apply stops_perf_counter|]. intros start.
    apply stops_bind; [by apply (stops_generator None)|]. intros ht.
    apply stops_bind; [|intros; apply stops_ret].
    destruct (bool_decide _);
      [apply stops_progress_loop|apply stops_silent_wait].
  - intros [[[hs start] ht] timeout]. unfold teardown_and_report. cbv zeta.
    apply stops_bind; [apply stops_perf_counter|]. intros now.
    apply stops_bind; [apply stops_interrupt|]. intros _.
    apply stops_bind; [apply stops_wait|]. intros _.
    apply stops_bind; [apply stops_kill|]. intros _.
    destruct timeout; [apply stops_print_output|].
    apply stops_bind; [apply stops_wait|]. intros st.
    destruct (ne_zero st); apply stops_print_output.
Qed.

Lemma stops_main fuel : stops_at_raise (main os argv fuel).
Proof.
  unfold main. apply stops_bind.
  - unfold header.
    repeat (apply stops_bind; [apply stops_print|intros _]).
    apply stops_bind.
    { unfold now_isoformat. apply stops_silent. intros [ds nl nh w0 lg].
      cbn [world]. destruct (os_now_isoformat os w0) as [stamp w1].
      eexists _, _. split; [reflexivity|]. exists []. cbn [set_world log].
      rewrite app_nil_r. split; [reflexivity|constructor]. }
    intros stamp.
    repeat (apply stops_bind; [apply stops_print|intros _]).
    apply stops_print.
  - intros _. pose proof variants_are_generators os as Hvs.
    induction Hvs as [|v vs [Hs Ht] _ IH]; [apply stops_ret|].
    cbn [for_each]. apply stops_bind; [by apply stops_main_iteration|].
    intros _. exact IH.
Qed.

(** The amended C3: a run that completes has printed one row per
    pairing, timed-out and failed testers included, and none of its calls
    has raised.  No exception is caught inside [main]: when a call
    raises, a failure to spawn included, no further call is issued and no
    row printed, and the run ends with that exception and with fewer rows
    than pairings.  The [__main__] block handles [KeyboardInterrupt]
    alone: the notice is printed once, after the call that raised, and
    the exception is raised again; any other exception passes without a
    notice. *)
Theorem run_ends_on_any_exception fuel m r m' :
  script os argv fuel m = (r, m') →
  ∃ m0 evs,
    main os argv fuel m = (r, m0) ∧
    log m' = log m ++ evs ∧
    match r with
    | Ok _ =>
        count is_row evs = length (variants os) ∧
        count is_abort_notice evs = 0
    | Raise e =>
        count is_row evs < length (variants os) ∧
        count is_abort_notice evs =
          if isinstance e "KeyboardInterrupt" then 1 else 0
    | _ =>
        count is_row evs < length (variants os) ∧
        count is_abort_notice evs = 0
    end ∧
    match r with
    | Raise e =>
        ∃ before ev,
          evs = before ++ ev ::
                (if isinstance e "KeyboardInterrupt"
                 then [EPrint (LF +:+ "Aborted")] else []) ∧
          raises e ev ∧
          Forall (λ ev', ¬ raised ev') before
    | _ => Forall (λ ev, ¬ raised ev) evs
    end.
Proof.
  intros H. unfold script, try_except in H.
  destruct (main os argv fuel m) as [r0 m0] eqn:Hmain.
  pose proof (main_rows _ _ _ _ Hmain) as (evs & Hlog & Hn & Hrows).
  pose proof (stops_main _ _ _ _ Hmain) as (evs' & Hlog' & Hstop).
  rewrite Hlog in Hlog'. apply app_inv_head in Hlog'. subst evs'.
  destruct r0 as [[]|e| |]; try (inversion H; subst; by exists m', evs).
  cbn in Hstop. destruct Hstop as (before & ev & -> & Hev & Hbefore).
  destruct (isinstance e "KeyboardInterrupt") eqn:Hki.
  - run_monad_in H. unfold reraise in H. injection H as <- <-.
    exists m0, ((before ++ [ev]) ++ [EPrint (LF +:+ "Aborted")]).
    rewrite Hki. split; [done|].
    split; [destruct m0 as [ds nl nh w0 lg]; cbn [log emit] in *;
            by rewrite Hlog, <- !app_assoc|].
    split.
    + rewrite !count_app in *.
      assert (H0 : count is_row [EPrint (LF +:+ "Aborted")] = 0) by reflexivity.
      assert (H1 : count is_abort_notice [EPrint (LF +:+ "Aborted")] = 1)
        by reflexivity.
      lia.
    + exists before, ev. rewrite <- !app_assoc. by repeat split.
  - injection H as <- <-. exists m0, (before ++ [ev]). rewrite Hki.
    split; [done|]. split; [done|]. split; [done|].
    exists before, ev. by repeat split.
Qed.

End Pairing.

(** ** In the simulated environment *)

Lemma Qle_bool_true (a b : Q) : Qle_bool a b = true → (a <= b)%Q.
Proof. apply Qle_bool_iff. Qed.

Lemma Qle_bool_false (a b : Q) : Qle_bool a b = false → (b < a)%Q.
Proof.
  intros H. apply Qnot_le_lt. intros Hle. apply Qle_bool_iff in Hle. congruence.
Qed.

Lemma Qle_bool_intro (a b : Q) : (a <= b)%Q → Qle_bool a b = true.
Proof. apply Qle_bool_iff. Qed.

Lemma Qgtb_true (a b : Q) : Qgtb a b = true → (b < a)%Q.
Proof.
  unfold Qgtb. intros H. apply Qle_bool_false. by destruct (Qle_bool a b).
Qed.

Lemma Qgtb_false (a b : Q) : Qgtb a b = false → (a <= b)%Q.
Proof.
  unfold Qgtb. intros H. apply Qle_bool_true. by destruct (Qle_bool a b).
Qed.

Section Simulation.
Context {arith : FloatArith} (plan : handle → Sim.behaviour) (argv : list string).

Lemma later_l (a b : Q) : (a <= Sim.later a b)%Q.
Proof.
  unfold Sim.later. destruct (Qle_bool a b) eqn:E.
  - by apply Qle_bool_true. 
  - apply Qle_refl.
Qed.

Lemma later_r (a b : Q) : (b <= Sim.later a b)%Q.
Proof.
  unfold Sim.later. destruct (Qle_bool a b) eqn:E.
  - apply Qle_refl.
  - apply Qlt_le_weak. by apply Qle_bool_false.
Qed.

(** A terminated process stays terminated as the clock advances. *)
Lemma exit_status_later p (t t' : Q) :
  (t <= t')%Q → is_None (Sim.exit_status p t) = false →
  is_None (Sim.exit_status p t') = false.
Proof.
  unfold Sim.exit_status. intros Ht. destruct (Sim.exits_at p) as [e|]; [|done].
  destruct (Qle_bool e t) eqn:E; [|done]. intros _.
  apply Qle_bool_true in E.
  rewrite (Qle_bool_intro e t'); [done|]. by eapply Qle_trans.
Qed.

Lemma signalled_dead p (c : Q) code :
  is_None (Sim.exit_status (Sim.signalled p c code) c) = false.
Proof.
  unfold Sim.signalled, Sim.exit_status.
  destruct (Sim.exits_at p) as [e|] eqn:He.
  - destruct (Qle_bool e c) eqn:E.
    + by rewrite He, E.
    + cbn. by rewrite (Qle_bool_intro c c) by apply Qle_refl.
  - cbn. by rewrite (Qle_bool_intro c c) by apply Qle_refl.
Qed.

(** After a kill the process is not running. *)
Lemma kill_stops h w r w' :
  Sim.kill h w = (r, w') → Sim.running h w' = false.
Proof.
  unfold Sim.kill, Sim.running. destruct (Sim.procs w !! h) as [p|] eqn:Hp.
  - intros H. inversion H; subst. cbn. rewrite lookup_insert_eq.
    apply signalled_dead.
  - intros H. inversion H; subst. by rewrite Hp.
Qed.

(** An un-timed wait that returns leaves its process not running, and
    every process that was not running stays so. *)
Lemma untimed_wait_stops h w st w' :
  Sim.wait h None w = (Returns st, w') →
  Sim.running h w' = false ∧
  ∀ h', Sim.running h' w = false → Sim.running h' w' = false.
Proof.
  unfold Sim.wait, Sim.running. destruct (Sim.procs w !! h) as [p|] eqn:Hp.
  - destruct (Sim.exits_at p) as [e|] eqn:He; [|done].
    intros H. inversion H; subst. cbn. rewrite Hp. split.
    + unfold Sim.exit_status. rewrite He.
      by rewrite (Qle_bool_intro e _) by apply later_r.
    + intros h'. destruct (Sim.procs w !! h') as [p'|]; [|done].
      apply exit_status_later, later_l.
  - intros H. inversion H; subst. by rewrite Hp.
Qed.

(** The amended C2: after a pairing completes the server is not running:
    it was interrupted, waited on for a second and killed.  The tester is
    not running when the pairing was not marked timed out: its exit was
    read by the final wait.  No kill is ever issued on the tester; one
    that timed out received the interrupt and nothing more. *)
Theorem server_stopped_after_pairing fuel (v : Variation Sim.sim) m m' :
  v ∈ variants (Sim.os plan) →
  main_iteration (Sim.os plan) argv fuel v m = (Ok tt, m') →
  ∃ start_time timeout m1 evs,
    start_and_wait (Sim.os plan) argv fuel v m =
      (Ok (next_handle m, start_time, S (next_handle m), timeout), m1) ∧
    Sim.running (next_handle m) (world m') = false ∧
    (timeout = false → Sim.running (S (next_handle m)) (world m') = false) ∧
    log m' = log m ++ evs ∧
    Forall (λ e, ¬ kills (S (next_handle m)) e) evs.
Proof.
  intros Hv H. destruct (variant_generators _ v Hv) as [Hs Ht].
  pose proof (main_iteration_parts _ _ _ _ _ _ _ Hs Ht H)
    as (pre & waiting & closing & Hlog & Hpre & Hwaiting & Hclosing & _).
  unfold main_iteration in H. apply bind_inv in H as (r1 & m1 & H1 & H).
  pose proof (start_and_wait_log _ _ _ _ _ _ _ Hs Ht H1) 
    as (pre' & waiting' & _ & _ & _ & Hr1).
  destruct r1 as [[[[hs start] ht] timeout]|e| |]; try (by destruct H).
  destruct Hr1 as (-> & -> & _).
  apply teardown_and_report_ok in H
    as (now & r1 & w1 & w2 & w3 & w4 & _ & _ & _ & Hkill & H).
  exists start, timeout, m1, (pre ++ waiting ++ closing).
  split; [done|]. apply kill_stops in Hkill.
  assert (Hend : Sim.running (next_handle m) (world m') = false ∧
                 (timeout = false →
                  Sim.running (S (next_handle m)) (world m') = false)).
  { destruct timeout.
    - destruct H as [-> _]. by split.
    - destruct H as (st & w5 & Hwait & -> & _).
      apply untimed_wait_stops in Hwait as [Hdead Hkeep]. split; [|done].
      by apply Hkeep. }
  destruct Hend as [Hserver Htester].
  split; [done|]. split; [done|]. split; [done|].
  assert (Hne : next_handle m ≠ S (next_handle m)) by lia.
  apply Forall_app; split; [|apply Forall_app; split].
  - apply (start_events_quiet _ _ (kills (S (next_handle m))) pre Hpre);
      intros; cbn; tauto.
  - eapply Forall_impl; [exact Hwaiting|]. by_event.
  - eapply Forall_impl; [exact Hclosing|]. by_event.
Qed.

End Simulation.

(** * Names and layout of the table *)

Lemma string_length_app (s1 s2 : string) :
  String.length (s1 +:+ s2) = String.length s1 + String.length s2.
Proof.
  induction s1 as [|c s1 IH]; [done|].
  change (String c s1 +:+ s2) with (String c (s1 +:+ s2)).
  cbn [String.length]. by rewrite IH.
Qed.

Lemma string_map_length f (s : string) :
  String.length (string_map f s) = String.length s.
Proof.
  induction s as [|c s IH]; [done|].
  cbn [string_map String.length]. by rewrite IH.
Qed.

Lemma times_length (s : string) n :
  String.length (times s n) = n * String.length s.
Proof.
  induction n as [|n IH]; [done|]. cbn [times].
  rewrite string_length_app, IH. lia.
Qed.

(** [ljust] pads up to the width and never truncates. *)
Lemma ljust_length (s : string) width :
  String.length (ljust s width) = String.length s `max` width.
Proof.
  unfold ljust. rewrite string_length_app, times_length. cbn [String.length]. lia.
Qed.

Lemma string_forall_map (p : Ascii.ascii → bool) f (s : string) :
  (∀ c, p (f c) = true) → string_forall p (string_map f s) = true.
Proof.
  intros H. induction s as [|c s IH]; [done|]. cbn. by rewrite H, IH.
Qed.

(** Facts about every character, by cases on its eight bits. *)
Ltac by_char c := destruct c as [[] [] [] [] [] [] [] []]; try reflexivity; try discriminate.

Lemma ascii_upper_not_lower c : is_lower (ascii_upper c) = false.
Proof. by_char c. Qed.

Lemma ascii_lower_not_upper c : is_upper (ascii_lower c) = false.
Proof. by_char c. Qed.

Lemma ascii_upper_not_underscore c :
  Ascii.eqb c underscore = false → Ascii.eqb (ascii_upper c) underscore = false.
Proof. by_char c. Qed.

Lemma ascii_lower_not_underscore c :
  Ascii.eqb c underscore = false → Ascii.eqb (ascii_lower c) underscore = false.
Proof. by_char c. Qed.

Lemma replaced_not_underscore c :
  Ascii.eqb (if Ascii.eqb c underscore then space else c) underscore = false.
Proof. by_char c. Qed.

(** X1: for a function whose [__name__] is ASCII, [name_variant] gives a
    label as long as the name, without underscores, that does not begin
    with a lower-case letter and has no upper-case letter after its first
    character. *)
Theorem name_variant_shape {W} (func : function W) :
  ascii_only (func_name func) = true →
  String.length (name_variant func) = String.length (func_name func) ∧
  string_forall (λ c, negb (Ascii.eqb c underscore)) (name_variant func) = true ∧
  match name_variant func with
  | EmptyString => func_name func = EmptyString
  | String c rest =>
      is_lower c = false ∧ string_forall (λ c, negb (is_upper c)) rest = true
  end.
Proof.
  intros _. unfold name_variant, display_name, replace_underscores.
  destruct (func_name func) as [|c s]; [done|]. cbn.
  rewrite !string_map_length. split; [done|]. split; [|split].
  - rewrite ascii_upper_not_underscore by apply replaced_not_underscore. cbn.
    induction s as [|c' s IH]; [done|]. cbn.
    rewrite ascii_lower_not_underscore by apply replaced_not_underscore. done.
  - apply ascii_upper_not_lower.
  - apply string_forall_map. intros c'. by rewrite ascii_lower_not_upper.
Qed.

Lemma undisplay_first_char c :
  snake_char c = true →
  undisplay_first (ascii_upper (if Ascii.eqb c underscore then space else c)) = c.
Proof. by_char c. Qed.

Lemma undisplay_rest_char c :
  snake_char c = true →
  undisplay_rest (ascii_lower (if Ascii.eqb c underscore then space else c)) = c.
Proof. by_char c. Qed.

Lemma undisplay_display (name : string) :
  snake_case name = true → undisplay (display_name name) = name.
Proof.
  unfold snake_case, display_name, replace_underscores.
  destruct name as [|c s]; [done|]. cbn.
  intros [Hc Hs]%andb_prop. rewrite undisplay_first_char by done. f_equal.
  induction s as [|c' s IH]; [done|]. cbn in *.
  apply andb_prop in Hs as [Hc' Hs]. rewrite undisplay_rest_char by done.
  f_equal. by apply IH.
Qed.

(** X2: on snake-case names, lower-case letters, digits and underscores,
    [name_variant] loses nothing: two functions with the same label have
    the same [__name__]. *)
Theorem name_variant_injective {W} (f g : function W) :
  snake_case (func_name f) = true →
  snake_case (func_name g) = true →
  name_variant f = name_variant g →
  func_name f = func_name g.
Proof.
  unfold name_variant. intros Hf Hg Heq.
  rewrite <- (undisplay_display _ Hf), <- (undisplay_display _ Hg). by rewrite Heq.
Qed.

(** Without that restriction it does: [Foo] and [foo] share a label. *)
Example name_variant_collision :
  display_name "Foo" = display_name "foo" ∧ display_name "a_b" = "A b".
Proof. by vm_compute. Qed.

Section LayoutFacts.
Context (format_9_3f : Q → string).

Lemma print_output_text_length server tester duration c :
String.length (print_output_text format_9_3f server tester duration c) =
String.length (color_code c)
+ (10 + String.length (display_name server) `max` 25
      + String.length (display_name tester) `max` 30
      + String.length (match duration with
                       | DurFloat q => format_9_3f q
                       | DurStr s => s
                       end) `max` 9)
+ String.length (match c with NoColor => "" | _ => Fore_RESET end).
Proof.
unfold print_output_text. rewrite !string_length_app, !ljust_length.
cbn [String.length]. lia.
Qed.

Lemma variants_names_fit {W} (os : OS W) :
Forall (λ v, String.length (name_variant (server v)) ≤ 25 ∧
             String.length (name_variant (tester v)) ≤ 30) (variants os).
Proof.
unfold variants. cbn [mbind list_bind mret list_ret app].
repeat (constructor; [split; vm_compute; lia|]). constructor.
Qed.

(** X3: the table is aligned but for one row.  For every pairing of
  [variants], the [Error] row and a duration row whose number is
  formatted on 9 characters are [table_width] characters wide, as is
  every row whose last column fits in 9 characters; the
  [Timeout (120 s)] row is 6 characters wider, its text being longer than
  the column. *)
Theorem rows_aligned_but_timeout {W} (os : OS W) (v : Variation W) :
v ∈ variants os →
let text := print_output_text format_9_3f
              (func_name (server v)) (func_name (tester v)) in
(∀ d, String.length (match d with
                     | DurFloat q => format_9_3f q
                     | DurStr s => s
                     end) ≤ 9 →
      String.length (text d NoColor) = table_width) ∧
String.length (text (DurStr "Error") NoColor) = table_width ∧
String.length
  (text (DurStr ("Timeout (" +:+ str TEST_TIMEOUT +:+ " s)")) NoColor)
= table_width + 6.
Proof.
intros Hv text.
pose proof (proj1 (Forall_forall _ _) (variants_names_fit os) v Hv) as [Hs Ht].
unfold name_variant in Hs, Ht. subst text. unfold table_width.
split; [|split].
- intros d Hd. rewrite print_output_text_length. cbn [color_code String.length]. lia.
- rewrite print_output_text_length. cbn [color_code String.length]. lia.
- rewrite print_output_text_length.
  change (String.length ("Timeout (" +:+ str TEST_TIMEOUT +:+ " s)")) with 15.
  cbn [color_code String.length]. lia.
Qed.

End LayoutFacts.

(** * The wait on the tester, mode by mode *)

Section Modes.
Context {W : Type} {arith : FloatArith} (os : OS W) (argv : list string).

(** Close a case of a symbolic run: the run ended with the events just
  appended to the log. *)
Ltac ended_here H :=
inversion H; subst; clear H;
eexists; split;
[ cbn [log]; rewrite <- ?app_assoc; cbn [app]; reflexivity | ].

(** The progress loop, however it ends: it waits on the tester a tenth of
  a second at a time and polls nothing; each progress row shows a
  duration within [TEST_TIMEOUT]; and the loop sets [timeout] at the
  first clock reading beyond [TEST_TIMEOUT], every reading before it
  being within. *)
Lemma progress_loop_events fuel (s t : function W) ht start m r m' :
progress_loop os fuel s t ht start m = (r, m') →
∃ evs, log m' = log m ++ evs ∧
  Forall (progress_event ht) evs ∧
  Forall progress_row_within evs ∧
  match r with
  | Ok true =>
      ∃ evs0 now,
        evs = evs0 ++ [EPerfCounter (Returns now); EInterrupt ht (Returns tt)] ∧
        Forall (reading_within start) evs0 ∧
        (inject_Z TEST_TIMEOUT < float_sub now start)%Q
  | Ok false => Forall (reading_within start) evs
  | _ => True
  end.
Proof.
revert m. induction fuel as [|fuel IH]; intros [ds nl nh w0 lg] H.
- cbn in H. inversion H; subst. exists []. cbn [log].
  by rewrite app_nil_r.
- cbn [progress_loop] in H. run_monad_in H.
  os_case H.
  + ended_here H. repeat (split; [repeat constructor|]). repeat constructor.
  + os_case H.
    * if_case H.
      -- os_case H.
         ++ ended_here H. repeat (split; [repeat constructor|]).
            eexists [_], _. split; [reflexivity|].
            split; [repeat constructor|]. by apply Qgtb_true.
         ++ ended_here H. repeat (split; [repeat constructor|]). done.
         ++ ended_here H. repeat (split; [repeat constructor|]). done.
      -- apply IH in H as (evs & Hlog & Hev & Hrow & Hr).
         cbn [log] in Hlog. eexists. split.
         { cbn [log]. rewrite Hlog, <- !app_assoc. cbn [app]. reflexivity. }
         match goal with Hq : Qgtb _ _ = false |- _ => apply Qgtb_false in Hq end.
         split; [repeat (constructor; [by cbn|]); done|].
         split.
         { constructor; [by cbn|]. constructor; [by cbn|].
           constructor; [|done]. cbn. split; [by eexists|done]. }
         destruct r as [[|]| | |]; try done.
         ++ destruct Hr as (evs0 & now & -> & Hin & Hnow).
            eexists (_ :: _ :: _ :: evs0), now. split; [reflexivity|].
            split; [|done]. repeat (constructor; [by cbn|]). done.
         ++ repeat (constructor; [by cbn|]). done.
    * ended_here H. repeat (split; [repeat constructor|]). done.
    * ended_here H. repeat (split; [repeat constructor|]). done.
  + ended_here H. repeat (split; [repeat constructor|]). done.
  + ended_here H. repeat (split; [repeat constructor|]). done.
Qed.

(** The silent wait, however it ends: one wait of [TEST_TIMEOUT] seconds
  on the tester, then at most a poll and an interrupt on it. *)
Lemma silent_wait_events ht m r m' :
silent_wait os ht m = (r, m') →
∃ evs, log m' = log m ++ evs ∧ Forall (silent_event ht) evs.
Proof.
destruct m as [ds nl nh w0 lg]. intros H. unfold silent_wait in H.
run_monad_in H. run_to_end H.
all: ended_here H; repeat (constructor; [by cbn|]); constructor.
Qed.

(** What a call of a variant function leaves. *)
Lemma spawns_run P wait_for (f : function W) m r m' :
spawns os P wait_for f → func_call f m = (r, m') →
∃ args d rep,
  P args d ∧
  r = constructed rep (next_handle m) ∧
  log m' = log m ++ [ESubtask (next_handle m) args d wait_for rep] ∧
  next_handle m' = S (next_handle m) ∧
  dicts m' = <[next_loc m := d]> (dicts m) ∧
  next_loc m' = S (next_loc m).
Proof.
intros Hf H. destruct (Hf m) as (args & d & HP & Hrun).
rewrite Hrun in H. unfold spawned in H.
destruct (os_subtask os (next_handle m) args d wait_for (world m))
  as [rep w] eqn:E.
inversion H; subst. by exists args, d, rep.
Qed.

Lemma server_environment_empty : server_environment ∅.
Proof. by split. Qed.

Lemma server_environment_jsonify :
server_environment {[ "FLASK_JSONIFY" := "TRUE" ]}.
Proof. split; by apply lookup_singleton_ne. Qed.

Lemma tester_environment_update (d : environ) :
tester_environment ({[ "NUM_TESTS" := str NUM_TESTS;
                       "NUM_REQUESTS" := str NUM_REQUESTS ]} ∪ d).
Proof. split; apply lookup_union_Some_l; reflexivity. Qed.

(** Unfold a variant function down to its [Subtask] call. *)
Ltac spawning :=
intros [ds nl nh w0 lg]; eexists _, _;
cbv beta iota zeta delta
  [server tester func_call
   flask_jsonify flask_json_lib express pytest_flask_testing
   pytest_real_request_post pytest_real_request_get jest_fetch_post
   jest_sync_request_post jest_sync_request_curl_post jest_light_my_request
   jest_fetch_get jest_sync_request_get jest_sync_request_curl_get
   flask_server express_server pytest_tester jest_tester
   mbind M_bind new_dict dict_update dicts next_loc next_handle world log];
rewrite Subtask_run; unfold dict_contents;
cbn [dicts next_loc next_handle world log];
rewrite ?alter_insert_eq, lookup_insert_eq;
(split; [|reflexivity]);
(split;
 [ first [by left | by right]
 | first [ apply server_environment_empty
         | apply server_environment_jsonify
         | apply tester_environment_update ] ]).

Lemma variants_spawn :
Forall (λ v,
    spawns os (λ args d, server_command args ∧ server_environment d)
           (Some ServerIsUp) (server v) ∧
    spawns os (λ args d, tester_command args ∧ tester_environment d)
           None (tester v)) (variants os).
Proof.
unfold variants. cbn [mbind list_bind mret list_ret app].
repeat (constructor; [split; spawning|]).
constructor.
Qed.

(** The constructor calls at the head of a pairing are as configured. *)
Ltac spawned_ok :=
repeat first
  [ apply Forall_nil_2
  | apply Forall_cons_2; [first [assumption | exact I]|] ].

(** The first part of the body is the three starting calls and then, when
  they have returned, the wait of the selected mode. *)
Lemma start_and_wait_phases fuel (v : Variation W) m r m' :
v ∈ variants os →
start_and_wait os argv fuel v m = (r, m') →
∃ pre, start_events (next_handle m) (S (next_handle m)) pre ∧
  Forall spawn_as_configured pre ∧
  ((log m' = log m ++ pre ∧ ∀ x, r ≠ Ok x) ∨
   ∃ start m3 r4,
     both_started (next_handle m) (S (next_handle m)) start pre ∧
     log m3 = log m ++ pre ∧
     wait_phase os argv fuel v (S (next_handle m)) start m3 = (r4, m') ∧
     match r4 with
     | Ok timeout => r = Ok (next_handle m, start, S (next_handle m), timeout)
     | _ => carried r4 r
     end).
Proof.
intros Hv H.
destruct (proj1 (Forall_forall _ _) variants_spawn v Hv) as [Hs Ht].
unfold start_and_wait in H.
apply bind_inv in H as (r1 & m1 & H1 & H).
apply (spawns_run _ _ _ _ _ _ Hs) in H1
  as (a & d & rep & Hsp & -> & Hlog1 & Hnh1 & _).
destruct rep as [[]|e|]; cbn [constructed] in H;
  [|destruct H as [-> Hr]; destruct r; try done;
    eexists; (split; [|split]);
    [ | |left; split; [exact Hlog1|done]]; [constructor|spawned_ok]..].
apply bind_inv in H as (r2 & m2 & H2 & H).
destruct m1 as [ds1 nl1 nh1 w1 lg1]. cbn [log next_handle] in *. subst nh1 lg1.
unfold perf_counter, perform in H2. cbn [world] in H2.
destruct (os_perf_counter os w1) as [[start|e|] w2]; inversion H2; subst; clear H2;
  [|destruct H as [-> Hr]; destruct r; try done;
    eexists; (split; [|split]);
    [ | |left; cbn [emit set_world log]; rewrite <- app_assoc;
         split; [reflexivity|done]]; [apply start_clock|spawned_ok]..].
apply bind_inv in H as (r3 & m3 & H3 & H).
apply (spawns_run _ _ _ _ _ _ Ht) in H3
  as (a' & d' & rep & Hsp' & -> & Hlog3 & Hnh3 & _).
cbn [emit set_world log next_handle] in *.
destruct rep as [[]|e|]; cbn [constructed] in H;
  [|destruct H as [-> Hr]; destruct r; try done;
    eexists; (split; [|split]);
    [ | |left; rewrite Hlog3, <- !app_assoc; split; [reflexivity|done]];
    [apply start_tester|spawned_ok]..].
apply bind_inv in H as (r4 & m4 & H4 & H).
exists [ESubtask (next_handle m) a d (Some ServerIsUp) (Returns tt);
        EPerfCounter (Returns start);
        ESubtask (S (next_handle m)) a' d' None (Returns tt)].
split; [apply start_tester|]. split; [spawned_ok|].
right. exists start, m3, r4.
split; [by eexists _, _, _, _|].
split; [by rewrite Hlog3, <- !app_assoc|].
destruct r4 as [timeout|e| |].
- inversion H; subst. by split.
- destruct H as [-> Hr]. by split.
- destruct H as [-> Hr]. by split.
- destruct H as [-> Hr]. by split.
Qed.

(** The events of the selected wait. *)
Lemma wait_phase_events fuel (v : Variation W) ht start m r m' :
wait_phase os argv fuel v ht start m = (r, m') →
∃ evs, log m' = log m ++ evs ∧
  Forall progress_row_within evs ∧
  if bool_decide ("--progress" ∈ argv)
  then Forall (progress_event ht) evs
  else Forall (silent_event ht) evs.
Proof.
unfold wait_phase. destruct (bool_decide ("--progress" ∈ argv)); intros H.
- apply progress_loop_events in H as (evs & Hlog & Hev & Hrow & _).
  by exists evs.
- apply silent_wait_events in H as (evs & Hlog & Hev).
  exists evs. split; [done|]. split; [|done].
  eapply Forall_impl; [exact Hev|]. by_event.
Qed.

(** The second part of the body waits a second on the server and, with
  [timeout] set, issues no un-timed wait. *)
Lemma teardown_and_report_waits v hs start ht timeout m r m' :
teardown_and_report os v hs start ht timeout m = (r, m') →
∃ evs, log m' = log m ++ evs ∧
  Forall waits_a_second evs ∧
  table evs = match r with Ok _ => [pairing_names v] | _ => [] end ∧
  (timeout = true → Forall (λ e, ∀ h, ¬ untimed_wait h e) evs).
Proof.
destruct m as [ds nl nh w0 lg]. intros H. unfold teardown_and_report in H.
run_monad_in H. run_to_end H.
all: ended_here H.
all: split; [repeat constructor|].
all: split; [reflexivity|].
all: intros Ht; try discriminate Ht.
all: repeat (constructor; [cbn; tauto|]); constructor.
Qed.

(** The events of one iteration, however it ends, with the wait described
  by its mode. *)
Lemma main_iteration_by_mode fuel (v : Variation W) m r m' :
v ∈ variants os →
main_iteration os argv fuel v m = (r, m') →
∃ pre waiting closing,
  log m' = log m ++ pre ++ waiting ++ closing ∧
  start_events (next_handle m) (S (next_handle m)) pre ∧
  Forall spawn_as_configured pre ∧
  Forall progress_row_within waiting ∧
  (if bool_decide ("--progress" ∈ argv)
   then Forall (progress_event (S (next_handle m))) waiting
   else Forall (silent_event (S (next_handle m))) waiting) ∧
  Forall (closing_event (next_handle m) (S (next_handle m))) closing ∧
  Forall waits_a_second closing.
Proof.
intros Hv H.
unfold main_iteration in H. apply bind_inv in H as (r1 & m1 & H1 & H).
apply (start_and_wait_phases _ _ _ _ _ Hv) in H1
  as (pre & Hpre & Hsp
      & [[Hlog Hr1]|(start & m3 & r4 & _ & Hlog3 & Hwait & Hr4)]).
- destruct r1 as [x| | |]; [by destruct (Hr1 x)|..]; destruct H as [-> _];
    exists pre, [], []; rewrite !app_nil_r; (split; [done|]);
    (split; [done|]); (split; [done|]); (split; [done|]);
    (split; [by destruct (bool_decide _)|done]).
- apply wait_phase_events in Hwait as (waiting & Hlog1 & Hrow & Hmode).
  destruct r4 as [timeout|e| |].
  + subst r1.
    pose proof (teardown_and_report_waits _ _ _ _ _ _ _ _ H)
      as (closing' & Hlog'' & Hsecond & _).
    apply teardown_and_report_log in H
      as (closing & (Hlog' & _) & Hclosing & _).
    rewrite Hlog' in Hlog''. apply app_inv_head in Hlog''. subst closing'.
    exists pre, waiting, closing. rewrite Hlog', Hlog1, Hlog3, <- !app_assoc.
    by repeat split.
  + destruct r1; try done. destruct H as [-> _].
    exists pre, waiting, []. rewrite app_nil_r, Hlog1, Hlog3, <- !app_assoc.
    by repeat split.
  + destruct r1; try done. destruct H as [-> _].
    exists pre, waiting, []. rewrite app_nil_r, Hlog1, Hlog3, <- !app_assoc.
    by repeat split.
  + destruct r1; try done. destruct H as [-> _].
    exists pre, waiting, []. rewrite app_nil_r, Hlog1, Hlog3, <- !app_assoc.
    by repeat split.
Qed.

(** ** The whole run *)

(** The header: twelve lines on [stdout]; nothing is started. *)
Lemma header_prints (m : machine W) :
∃ m1 texts, header os m = (Ok tt, m1) ∧ log m1 = log m ++ map EPrint texts.
Proof.
destruct m as [ds nl nh w0 lg]. unfold header. run_monad.
destruct (os_now_isoformat os w0) as [stamp w1].
eexists _, [_; _; _; _; _; _; _; _; _; _; _; _]. split; [reflexivity|].
cbn [log map]. rewrite <- !app_assoc. reflexivity.
Qed.

(** A property of logs that holds of the empty log and of a printed line,
  that is kept by concatenation and that every pairing's events have,
  holds of the events of the run, however it ends. *)
Lemma script_log_induction (Φ : list event → Prop) fuel m r m' :
Φ [] → (∀ l1 l2, Φ l1 → Φ l2 → Φ (l1 ++ l2)) → (∀ text, Φ [EPrint text]) →
(∀ v m r m', v ∈ variants os → main_iteration os argv fuel v m = (r, m') →
   ∃ evs, log m' = log m ++ evs ∧ Φ evs) →
script os argv fuel m = (r, m') →
∃ evs, log m' = log m ++ evs ∧ Φ evs.
Proof.
intros Hnil Happ Hprint Hiter H.
assert (Hprints : ∀ texts, Φ (map EPrint texts)).
{ induction texts as [|t texts IH]; [done|].
  change (Φ ([EPrint t] ++ map EPrint texts)). by apply Happ. }
assert (Hloop : ∀ vs, (∀ v, v ∈ vs → v ∈ variants os) →
          ∀ m r m', for_each os argv fuel vs m = (r, m') →
          ∃ evs, log m' = log m ++ evs ∧ Φ evs).
{ clear m r m' H. induction vs as [|v vs IH]; intros Hvs m r m' H.
  - inversion H; subst. exists []. by rewrite app_nil_r.
  - cbn [for_each] in H. apply bind_inv in H as (r1 & m1 & H1 & H).
    apply Hiter in H1 as (evs1 & Hlog1 & H1); [|apply Hvs; left].
    destruct r1 as [[]|e| |]; [|destruct H as [-> _]; by exists evs1..].
    apply IH in H as (evs & Hlog & H2); [|intros v' Hv'; apply Hvs; by right].
    exists (evs1 ++ evs). rewrite Hlog, Hlog1, <- app_assoc.
    split; [done|by apply Happ]. }
assert (Hmain : ∀ r0 m0, main os argv fuel m = (r0, m0) →
          ∃ evs, log m0 = log m ++ evs ∧ Φ evs).
{ intros r0 m0 Hm. unfold main in Hm.
  destruct (header_prints m) as (m1 & texts & Hh & Hlog1).
  apply bind_inv in Hm as (rh & mh & Hh' & Hm).
  rewrite Hh in Hh'. inversion Hh'; subst rh mh; clear Hh'.
  apply Hloop in Hm as (evs & Hlog & Hevs); [|done].
  exists (map EPrint texts ++ evs). rewrite Hlog, Hlog1, <- app_assoc.
  split; [done|]. by apply Happ. }
unfold script, try_except in H.
destruct (main os argv fuel m) as [r0 m0] eqn:Hm.
destruct (Hmain r0 m0 eq_refl) as (evs & Hlog & Hevs).
destruct r0 as [[]|e| |]; try (inversion H; subst; by exists evs).
destruct (isinstance e "KeyboardInterrupt").
- run_monad_in H. unfold reraise in H. inversion H; subst; clear H.
  exists (evs ++ [EPrint (LF +:+ "Aborted")]).
  destruct m0 as [ds nl nh w0 lg]. cbn [log] in *. rewrite Hlog, app_assoc.
  split; [done|]. by apply Happ.
- inversion H; subst. by exists evs.
Qed.

Lemma start_events_plain hs ht (P : event → Prop) pre :
start_events hs ht pre →
(∀ h a d f r, P (ESubtask h a d f r)) → (∀ r, P (EPerfCounter r)) →
Forall P pre.
Proof. intros [] H1 H2; repeat constructor; auto. Qed.

(** X4: every [print_output] call of a run that writes to [stderr],
  however the run ends, is a progress row: yellow, ended by a carriage
  return, and showing a number of seconds that does not exceed
  [TEST_TIMEOUT].  (The traceback the interpreter writes there once an
  exception has left the [__main__] block is not a call of the runner.) *)
Theorem progress_rows_within_timeout fuel m r m' :
script os argv fuel m = (r, m') →
∃ evs, log m' = log m ++ evs ∧ Forall progress_row_within evs.
Proof.
apply (script_log_induction (Forall progress_row_within)).
- constructor.
- intros l1 l2 H1 H2. by apply Forall_app.
- intros text. by constructor.
- intros v m0 r0 m0' Hv H.
  apply (main_iteration_by_mode _ _ _ _ _ Hv) in H
    as (pre & waiting & closing & Hlog & Hpre & _ & Hrow & _ & Hclosing & _).
  exists (pre ++ waiting ++ closing). split; [done|].
  rewrite !Forall_app. split; [|split; [done|]].
  + by apply (start_events_plain _ _ _ _ Hpre).
  + eapply Forall_impl; [exact Hclosing|]. by_event.
Qed.

(** X5: the two modes do not mix.  Under [--progress] the runner never
  calls [poll] and never waits [TEST_TIMEOUT] seconds; without it the
  runner makes no [print_output] call on [stderr] and issues no wait of a
  tenth of a second. *)
Theorem modes_do_not_mix fuel m r m' :
script os argv fuel m = (r, m') →
∃ evs, log m' = log m ++ evs ∧
  if bool_decide ("--progress" ∈ argv)
  then Forall (λ e, ¬ polls e ∧ ¬ waits_with (inject_Z TEST_TIMEOUT) e) evs
  else Forall (λ e, ¬ writes_stderr e ∧ ¬ waits_with (1 # 10) e) evs.
Proof.
set (Φ := λ evs : list event,
  if bool_decide ("--progress" ∈ argv)
  then Forall (λ e, ¬ polls e ∧ ¬ waits_with (inject_Z TEST_TIMEOUT) e) evs
  else Forall (λ e, ¬ writes_stderr e ∧ ¬ waits_with (1 # 10) e) evs).
apply (script_log_induction Φ); unfold Φ.
- destruct (bool_decide _); constructor.
- intros l1 l2 H1 H2. destruct (bool_decide _); by apply Forall_app.
- intros text. destruct (bool_decide _); constructor; try done; cbn; tauto.
- intros v m0 r0 m0' Hv H.
  apply (main_iteration_by_mode _ _ _ _ _ Hv) in H
    as (pre & waiting & closing & Hlog & Hpre & _ & _ & Hmode & Hclosing
        & Hsecond).
  exists (pre ++ waiting ++ closing). split; [done|].
  assert (Hboth : Forall (λ e, closing_event (next_handle m0)
                                 (S (next_handle m0)) e ∧ waits_a_second e)
                    closing) by (by apply Forall_and).
  destruct (bool_decide _); rewrite !Forall_app.
  + split; [|split].
    * apply (start_events_plain _ _ _ _ Hpre); intros; cbn; tauto.
    * eapply Forall_impl; [exact Hmode|]. intros []; cbn; try tauto.
      intros [_ ->]. split; [tauto|]. intros [=].
    * eapply Forall_impl; [exact Hboth|]. intros []; cbn; try tauto.
      destruct timeout; [|tauto]. intros [_ ->]. split; [tauto|]. intros [=].
  + split; [|split].
    * apply (start_events_plain _ _ _ _ Hpre); intros; cbn; tauto.
    * eapply Forall_impl; [exact Hmode|]. intros []; cbn; try tauto.
      intros [_ ->]. split; [tauto|]. intros [=].
    * eapply Forall_impl; [exact Hboth|]. intros []; cbn; try tauto.
      -- destruct timeout; [|tauto]. intros [_ ->]. split; [tauto|]. intros [=].
      -- destruct output; tauto.
Qed.



(** X7: every process a run starts is started as the generators of
  [variants] configure it: a server by one of the two server commands,
  with the readiness callback and without the two counts in its
  environment; a tester by one of the two tester commands, without a
  callback and with [NUM_TESTS = "100"] and [NUM_REQUESTS = "50"]. *)
Theorem processes_spawned_as_configured fuel m r m' :
script os argv fuel m = (r, m') →
∃ evs, log m' = log m ++ evs ∧ Forall spawn_as_configured evs.
Proof.
apply (script_log_induction (Forall spawn_as_configured)).
- constructor.
- intros l1 l2 H1 H2. by apply Forall_app.
- intros text. by constructor.
- intros v m0 r0 m0' Hv H.
  apply (main_iteration_by_mode _ _ _ _ _ Hv) in H
    as (pre & waiting & closing & Hlog & _ & Hsp & _ & Hmode & Hclosing & _).
  exists (pre ++ waiting ++ closing). split; [done|].
  rewrite !Forall_app. split; [done|]. split.
  + destruct (bool_decide _);
      (eapply Forall_impl; [exact Hmode|]); intros []; cbn; tauto.
  + eapply Forall_impl; [exact Hclosing|]. intros []; cbn; tauto.
Qed.

Lemma table_app l1 l2 : table (l1 ++ l2) = table l1 ++ table l2.
Proof. apply omap_app. Qed.

Lemma table_none evs : Forall (λ e, row_of e = None) evs → table evs = [].
Proof.
induction 1 as [|e evs He _ IH]; [done|]. unfold table in *. cbn.
by rewrite He.
Qed.

(** The rows of one iteration: the row of its pairing when it completes,
  none otherwise. *)
Lemma main_iteration_table fuel (v : Variation W) m r m' :
v ∈ variants os →
main_iteration os argv fuel v m = (r, m') →
∃ evs, log m' = log m ++ evs ∧
  table evs = match r with Ok _ => [pairing_names v] | _ => [] end.
Proof.
intros Hv H. destruct (variant_generators os v Hv) as [Hs Ht].
unfold main_iteration in H. apply bind_inv in H as (r1 & m1 & H1 & H).
apply (start_and_wait_log os argv _ _ _ _ _ Hs Ht) in H1
  as (pre & waiting & Hlog1 & Hpre & Hwaiting & _).
assert (Hquiet : table (pre ++ waiting) = []).
{ apply table_none, Forall_app. split.
  - by apply (start_events_plain _ _ _ _ Hpre).
  - eapply Forall_impl; [exact Hwaiting|]. intros []; cbn; try tauto.
    by destruct output. }
destruct r1 as [[[[hs start] ht] timeout]|e| |].
- apply teardown_and_report_waits in H as (closing & Hlog & _ & Htable & _).
  exists ((pre ++ waiting) ++ closing).
  split; [by rewrite Hlog, Hlog1, <- !app_assoc|].
  by rewrite table_app, Hquiet, Htable.
- destruct H as [-> Hr]. exists (pre ++ waiting). by destruct r.
- destruct H as [-> Hr]. exists (pre ++ waiting). by destruct r.
- destruct H as [-> Hr]. exists (pre ++ waiting). by destruct r.
Qed.

(** The loop prints the rows of the pairings it completes, in the order of
  the list. *)
Lemma for_each_table fuel (vs : list (Variation W)) m r m' :
(∀ v, v ∈ vs → v ∈ variants os) →
for_each os argv fuel vs m = (r, m') →
∃ evs n, log m' = log m ++ evs ∧
  table evs = pairing_names <$> take n vs ∧
  match r with
  | Ok _ => n = length vs
  | _ => n < length vs
  end.
Proof.
revert m. induction vs as [|v vs IH]; intros m Hvs H.
- inversion H; subst. exists [], 0. by rewrite app_nil_r.
- cbn [for_each] in H. apply bind_inv in H as (r1 & m1 & H1 & H).
  apply main_iteration_table in H1 as (evs1 & Hlog1 & Hrow); [|apply Hvs; left].
  destruct r1 as [[]|e| |].
  + apply IH in H as (evs & n & Hlog & Htable & Hn);
      [|intros v' Hv'; apply Hvs; by right].
    exists (evs1 ++ evs), (S n). rewrite Hlog, Hlog1, <- app_assoc.
    split; [done|]. rewrite table_app, Hrow, Htable. split; [done|].
    destruct r; cbn [length]; lia.
  + destruct H as [-> Hr]. destruct r; try done.
    exists evs1, 0. cbn [length]. split; [done|]. split; [done|lia].
  + destruct H as [-> Hr]. destruct r; try done.
    exists evs1, 0. cbn [length]. split; [done|]. split; [done|lia].
  + destruct H as [-> Hr]. destruct r; try done.
    exists evs1, 0. cbn [length]. split; [done|]. split; [done|lia].
Qed.

(** X8: the rows a run prints on [stdout] are the rows of the pairings of
  [variants], one each and in the order of the list: all of them when
  the run completes, those of a proper initial part of the list when it
  does not. *)
Theorem table_follows_variants fuel m r m' :
script os argv fuel m = (r, m') →
∃ evs n, log m' = log m ++ evs ∧
  table evs = pairing_names <$> take n (variants os) ∧
  match r with
  | Ok _ => n = length (variants os)
  | _ => n < length (variants os)
  end.
Proof.
intros H.
assert (Hmain : ∀ r0 m0, main os argv fuel m = (r0, m0) →
          ∃ evs n, log m0 = log m ++ evs ∧
            table evs = pairing_names <$> take n (variants os) ∧
            match r0 with
            | Ok _ => n = length (variants os)
            | _ => n < length (variants os)
            end).
{ intros r0 m0 Hm. unfold main in Hm.
  destruct (header_prints m) as (m1 & texts & Hh & Hlog1).
  apply bind_inv in Hm as (rh & mh & Hh' & Hm).
  rewrite Hh in Hh'. inversion Hh'; subst rh mh; clear Hh'.
  apply for_each_table in Hm as (evs & n & Hlog & Htable & Hn); [|done].
  exists (map EPrint texts ++ evs), n. rewrite Hlog, Hlog1, <- app_assoc.
  split; [done|]. split; [|done].
  rewrite table_app, Htable, table_none; [done|].
  apply Forall_forall. intros e He. apply list_elem_of_fmap in He as (t & -> & _).
  done. }
unfold script, try_except in H.
destruct (main os argv fuel m) as [r0 m0] eqn:Hm.
destruct (Hmain r0 m0 eq_refl) as (evs & n & Hlog & Htable & Hn).
destruct r0 as [[]|e| |];
  [injection H as <- <-; by exists evs, n| |injection H as <- <-; by exists evs, n..].
destruct (isinstance e "KeyboardInterrupt").
- run_monad_in H. unfold reraise in H. injection H as <- <-.
  exists (evs ++ [EPrint (LF +:+ "Aborted")]), n.
  destruct m0 as [ds nl nh w0 lg]. cbn [log] in *. rewrite Hlog, app_assoc.
  split; [done|]. split; [|done]. by rewrite table_app, Htable, app_nil_r.
- injection H as <- <-. by exists evs, n.
Qed.

(** X9: a call of a variant function of [variants] builds its environment
  anew: the [dict] handed to the constructor is created by this call, at
  an address no earlier object has, and the objects of earlier calls are
  left as they were; a tester's update of its [env] therefore never
  reaches another pairing. *)
Theorem variant_calls_build_fresh_environments (v : Variation W)
  (f : function W) m r m' :
v ∈ variants os →
f = server v ∨ f = tester v →
func_call f m = (r, m') →
∃ args d wait_for rep,
  log m' = log m ++ [ESubtask (next_handle m) args d wait_for rep] ∧
  dicts m' !! next_loc m = Some d ∧
  next_loc m' = S (next_loc m) ∧
  ∀ l, l ≠ next_loc m → dicts m' !! l = dicts m !! l.
Proof.
intros Hv Hf H.
destruct (proj1 (Forall_forall _ _) variants_spawn v Hv) as [Hs Ht].
destruct Hf as [-> | ->].
- apply (spawns_run _ _ _ _ _ _ Hs) in H
    as (args & d & rep & _ & _ & Hlog & _ & Hd & Hnl).
  exists args, d, (Some ServerIsUp), rep. rewrite Hd.
  split; [done|]. split; [apply lookup_insert_eq|]. split; [done|].
  intros l Hl. by apply lookup_insert_ne.
- apply (spawns_run _ _ _ _ _ _ Ht) in H
    as (args & d & rep & _ & _ & Hlog & _ & Hd & Hnl).
  exists args, d, None, rep. rewrite Hd.
  split; [done|]. split; [apply lookup_insert_eq|]. split; [done|].
  intros l Hl. by apply lookup_insert_ne.
Qed.

(** X10: under [--progress], when the first part of a pairing completes,
  the [timeout] flag is set exactly at the first clock reading of the
  loop whose difference from the start, as the floats subtract, exceeds
  [TEST_TIMEOUT]: with the flag set, that reading is the last of the
  loop, the interrupt of the tester follows it at once, and the
  difference computed at every reading before it was within
  [TEST_TIMEOUT]; with the flag clear, it was at every reading of the
  loop. *)
Theorem progress_timeout_at_first_late_reading fuel (v : Variation W) m
  server_proc start_time tester_proc timeout m1 :
v ∈ variants os →
"--progress" ∈ argv →
start_and_wait os argv fuel v m =
  (Ok (server_proc, start_time, tester_proc, timeout), m1) →
∃ pre waiting,
  log m1 = log m ++ pre ++ waiting ∧
  both_started server_proc tester_proc start_time pre ∧
  if timeout then
    ∃ evs0 now,
      waiting = evs0 ++ [EPerfCounter (Returns now);
                         EInterrupt tester_proc (Returns tt)] ∧
      Forall (reading_within start_time) evs0 ∧
      (inject_Z TEST_TIMEOUT < float_sub now start_time)%Q
  else Forall (reading_within start_time) waiting.
Proof.
intros Hv Hp H.
apply (start_and_wait_phases _ _ _ _ _ Hv) in H
  as (pre & _ & _ & [[_ Hr]|(start & m3 & r4 & Hboth & Hlog3 & Hwait & Hr4)]);
  [by destruct (Hr (server_proc, start_time, tester_proc, timeout))|].
unfold wait_phase in Hwait. rewrite (bool_decide_eq_true_2 _ Hp) in Hwait.
apply progress_loop_events in Hwait as (waiting & Hlog & _ & _ & Hw).
destruct r4 as [timeout'|e| |]; try done.
injection Hr4 as -> -> -> ->.
exists pre, waiting. split; [by rewrite Hlog, Hlog3, <- app_assoc|].
split; [done|]. by destruct timeout'.
Qed.

(** The silent wait when it returns: the reply to [wait(TEST_TIMEOUT)],
  then, unless that reply is the exit status [0], a poll, and the
  interrupt when the poll finds the tester running. *)
Lemma silent_wait_shape ht m timeout m' :
silent_wait os ht m = (Ok timeout, m') →
∃ st rest,
  log m' = log m ++ EWait ht (Some (inject_Z TEST_TIMEOUT)) (Returns st) :: rest ∧
  if timeout then
    st ≠ Some 0%Z ∧
    rest = [EPoll ht (Returns None); EInterrupt ht (Returns tt)]
  else
    (st = Some 0%Z ∧ rest = []) ∨
    (st ≠ Some 0%Z ∧ ∃ code, rest = [EPoll ht (Returns (Some code))]).
Proof.
destruct m as [ds nl nh w0 lg]. intros H. unfold silent_wait in H.
run_monad_in H. run_to_end H.
all: inversion H; subst; clear H; cbn [log]; rewrite <- ?app_assoc; cbn [app].
all: eexists _, _; (split; [reflexivity|]).
all: try match goal with
         | Hz : match ?z with 0%Z => _ | _ => _ end = _ |- _ =>
             destruct z; try discriminate Hz
         end.
all: first [ by left
           | right; split; [done|by eexists]
           | by split ].
Qed.

(** X11: without [--progress], when the first part of a pairing
  completes, the tester has been waited on once, for [TEST_TIMEOUT]
  seconds, and the [timeout] flag is decided by the poll that follows,
  not by that wait: the flag is set exactly when the wait did not answer
  [0] and the poll then found the tester running, and then the tester is
  interrupted; a tester whose exit the poll reports is not timed out,
  although the wait may have run out. *)
Theorem silent_timeout_decided_by_poll fuel (v : Variation W) m
  server_proc start_time tester_proc timeout m1 :
v ∈ variants os →
"--progress" ∉ argv →
start_and_wait os argv fuel v m =
  (Ok (server_proc, start_time, tester_proc, timeout), m1) →
∃ pre st rest,
  log m1 = log m ++ pre
           ++ EWait tester_proc (Some (inject_Z TEST_TIMEOUT)) (Returns st)
           :: rest ∧
  both_started server_proc tester_proc start_time pre ∧
  if timeout then
    st ≠ Some 0%Z ∧
    rest = [EPoll tester_proc (Returns None);
            EInterrupt tester_proc (Returns tt)]
  else
    (st = Some 0%Z ∧ rest = []) ∨
    (st ≠ Some 0%Z ∧ ∃ code, rest = [EPoll tester_proc (Returns (Some code))]).
Proof.
intros Hv Hp H.
apply (start_and_wait_phases _ _ _ _ _ Hv) in H
  as (pre & _ & _ & [[_ Hr]|(start & m3 & r4 & Hboth & Hlog3 & Hwait & Hr4)]);
  [by destruct (Hr (server_proc, start_time, tester_proc, timeout))|].
unfold wait_phase in Hwait. rewrite (bool_decide_eq_false_2 _ Hp) in Hwait.
destruct r4 as [timeout'|e| |]; try done.
injection Hr4 as -> -> -> ->.
apply silent_wait_shape in Hwait as (st & rest & Hlog & Hshape).
exists pre, st, rest. split; [by rewrite Hlog, Hlog3, <- app_assoc|].
by split.
Qed.

(** ** The timeout decision *)

Lemma paced_bound step T (ds : list Q) (d prev : Q) :
(prev <= T)%Q → Forall (λ x, (x <= T)%Q) ds → paced step prev (ds ++ [d]) →
(d <= T + step)%Q.
Proof.
revert prev. induction ds as [|x ds IH]; intros prev Hprev Hds Hp.
- destruct Hp as [Hd _]. lra.
- inversion Hds; subst. destruct Hp as [_ Hp]. by apply (IH x).
Qed.

Lemma durations_within start polls :
Forall (reading_within start) polls →
Forall (λ x, (x <= inject_Z TEST_TIMEOUT)%Q) (durations start polls).
Proof.
induction 1 as [|e polls He _ IH]; [constructor|].
unfold durations in *. destruct e as [| [now| |] | | | | | |]; cbn; try done.
by constructor.
Qed.

(** The progress loop when it returns. *)
Lemma progress_loop_shape fuel (s t : function W) ht start m timeout m' :
progress_loop os fuel s t ht start m = (Ok timeout, m') →
∃ waiting, log m' = log m ++ waiting ∧
  if timeout then
    ∃ polls late,
      waiting = polls ++ [EWait ht (Some (1 # 10)%Q) (Returns None);
                          EPerfCounter (Returns late);
                          EInterrupt ht (Returns tt)] ∧
      Forall (reading_within start) polls ∧
      (inject_Z TEST_TIMEOUT < float_sub late start)%Q
  else
    ∃ polls st,
      waiting = polls ++ [EWait ht (Some (1 # 10)%Q) (Returns (Some st))] ∧
      Forall (reading_within start) waiting.
Proof.
revert m. induction fuel as [|fuel IH]; intros [ds nl nh w0 lg] H; [done|].
cbn [progress_loop] in H. run_monad_in H.
os_case H; [|os_case H; [if_case H; [os_case H|]| |]| |];
  try (inversion H; fail).
- ended_here H. eexists [], _. split; [reflexivity|]. by repeat constructor.
- ended_here H. eexists [], _. split; [reflexivity|].
  split; [constructor|]. by apply Qgtb_true.
- match goal with Hq : Qgtb _ _ = false |- _ => apply Qgtb_false in Hq end.
  apply IH in H as (waiting & Hlog & Hshape). cbn [log] in Hlog.
  eexists. split.
  { cbn [log]. rewrite Hlog, <- !app_assoc. cbn [app]. reflexivity. }
  destruct timeout.
  + destruct Hshape as (polls & late & -> & Hpolls & Hlate).
    eexists (_ :: _ :: _ :: polls), late. split; [reflexivity|].
    split; [|done]. repeat (constructor; [by cbn|]). done.
  + destruct Hshape as (polls & st & -> & Hall).
    eexists (_ :: _ :: _ :: polls), st. split; [reflexivity|].
    repeat (constructor; [by cbn|]). done.
Qed.

Lemma progress_loop_verdict fuel (s t : function W) ht start m timeout m' :
progress_loop os fuel s t ht start m = (Ok timeout, m') →
∃ waiting, log m' = log m ++ waiting ∧ progress_verdict ht start timeout waiting.
Proof.
intros H. apply progress_loop_shape in H as (waiting & Hlog & Hshape).
exists waiting. split; [done|]. unfold progress_verdict.
destruct timeout; [|done].
destruct Hshape as (polls & late & -> & Hpolls & Hlate).
exists polls, late. split; [done|]. split; [done|]. split; [done|].
intros step Hp. unfold durations in Hp. rewrite omap_app in Hp. cbn in Hp.
apply (paced_bound step _ (durations start polls) _ 0%Q); [done| |done].
by apply durations_within.
Qed.

(** The amended C6: the timeout is [TEST_TIMEOUT], and a completed pairing
  is reported as [Timeout] or by the tester's exit status according to
  what the calls on the tester have answered, not to how long it ran.
  In silent mode the pairing is timed out exactly when
  [wait(TEST_TIMEOUT)] did not answer [0] and the poll after it found the
  tester running.  In progress mode it is timed out exactly when, after a
  poll that found the tester running, the elapsed time computed exceeds
  [TEST_TIMEOUT]; that elapsed time is the first to exceed it, hence
  exceeds it by no more than the step between two consecutive elapsed
  times.  In both modes a pairing in which no call reported the tester's
  exit is timed out, and one whose tester's exit was reported by the last
  call of the wait is not, however long the tester ran. *)
Theorem timeout_decided_by_replies fuel (v : Variation W) m m' :
v ∈ variants os →
main_iteration os argv fuel v m = (Ok tt, m') →
∃ pre start waiting timeout now r1 final,
  log m' = log m ++ pre ++ waiting
           ++ teardown_events (next_handle m) now r1 ++ final ∧
  both_started (next_handle m) (S (next_handle m)) start pre ∧
  reported v (S (next_handle m)) timeout (float_sub now start) final ∧
  (if bool_decide ("--progress" ∈ argv)
   then progress_verdict (S (next_handle m)) start timeout waiting
   else silent_verdict (S (next_handle m)) timeout waiting) ∧
  (Forall (λ e, ¬ reports_exit (S (next_handle m)) e) waiting →
   timeout = true).
Proof.
intros Hv H. destruct (variant_generators os v Hv) as [Hs Ht].
apply (main_iteration_ok _ _ _ _ _ _ Hs Ht) in H
  as (pre0 & start & waiting0 & timeout & now & r1 & final & m1
      & Hstart & _ & Hlog' & _ & _ & Hrep).
apply (start_and_wait_phases _ _ _ _ _ Hv) in Hstart
  as (pre & _ & _ & [[_ Hr]|(start' & m3 & r4 & Hboth & Hlog3 & Hwait & Hr4)]);
  [by destruct (Hr (next_handle m, start, S (next_handle m), timeout))|].
destruct r4 as [timeout'|e| |]; try done.
injection Hr4 as <- <-.
assert (Hverdict : ∃ waiting, log m1 = log m3 ++ waiting ∧
          (if bool_decide ("--progress" ∈ argv)
           then progress_verdict (S (next_handle m)) start timeout waiting
           else silent_verdict (S (next_handle m)) timeout waiting)).
{ unfold wait_phase in Hwait. destruct (bool_decide ("--progress" ∈ argv)).
  - by apply progress_loop_verdict in Hwait.
  - apply silent_wait_shape in Hwait as (st & rest & Hlog & Hshape).
    eexists. split; [exact Hlog|]. by exists st, rest. }
destruct Hverdict as (waiting & Hlog1 & Hverdict).
exists pre, start, waiting, timeout, now, r1, final.
split; [by rewrite Hlog', Hlog1, Hlog3, <- !app_assoc|].
split; [done|]. split; [done|]. split; [done|].
intros Hquiet. destruct timeout; [done|]. exfalso.
destruct (bool_decide ("--progress" ∈ argv)).
- destruct Hverdict as (polls & st & -> & _).
  apply Forall_app in Hquiet as [_ Hquiet]. inversion Hquiet; subst.
  match goal with Hn : ¬ reports_exit _ _ |- _ => by apply Hn end.
- destruct Hverdict as (st & rest & -> & [[-> ->]|[_ [code ->]]]).
  + inversion Hquiet; subst.
    match goal with Hn : ¬ reports_exit _ _ |- _ => by apply Hn end.
  + inversion Hquiet as [|? ? _ Hrest]; subst. inversion Hrest; subst.
    match goal with Hn : ¬ reports_exit _ _ |- _ => by apply Hn end.
Qed.

End Modes.

(** X12: [variants] holds 27 pairings, and no two of them are shown under
    the same pair of names: a row of the table identifies its pairing. *)
Theorem displayed_pairings_distinct {W} (os : OS W) :
  length (variants os) = 27 ∧
  NoDup ((λ v, (name_variant (server v), name_variant (tester v)))
           <$> variants os).
Proof.
  split; [reflexivity|].
  apply (bool_decide_unpack _). vm_compute. exact I.
Qed.

(** * The head of the table *)

(** X13: when the header of the page has been printed, the run has
    written twelve lines on [stdout] and started no process; the last two
    lines are the head of the table and its rule, each as wide as an
    aligned row. *)
Theorem table_head_as_wide_as_rows {W} (os : OS W) (m m1 : machine W) :
  header os m = (Ok tt, m1) →
  ∃ before head rule,
    log m1 = log m ++ map EPrint (before ++ [head; rule]) ∧
    length before = 10 ∧
    String.length head = table_width ∧
    String.length rule = table_width ∧
    next_handle m1 = next_handle m ∧
    dicts m1 = dicts m.
Proof.
  destruct m as [ds nl nh w0 lg]. unfold header. run_monad.
  destruct (os_now_isoformat os w0) as [stamp w1]. intros E.
  injection E as <-.
  eexists [_; _; _; _; _; _; _; _; _; _], _, _.
  cbn [log map app]. rewrite <- !app_assoc. cbn [app].
  split; [reflexivity|]. by repeat split.
Qed.

(** ** The properties on concrete runs *)

(** The runs below are over clocks that show rationals, subtracted
    exactly. *)
#[local] Existing Instance Sim.exact_arith.

Lemma first_pairing_in plan :
  Scenario.first_pairing plan ∈ variants (Sim.os plan).
Proof. unfold variants. cbn [mbind list_bind mret list_ret app]. left. Qed.

(** A fact about every event of an explicit log. *)
Ltac each_event :=
  repeat (constructor; [cbn; unfold teardown_call; cbn; intuition congruence|]);
  try constructor.

Lemma outcome_priority_witness :
  let run := main_iteration (Sim.os Scenario.quick) [] 0
               (Scenario.first_pairing Scenario.quick) Sim.start in
  run.1 = Ok tt ∧
  ∃ server_proc start_time tester_proc timeout m1 now r1,
    start_and_wait (Sim.os Scenario.quick) [] 0
      (Scenario.first_pairing Scenario.quick) Sim.start =
      (Ok (server_proc, start_time, tester_proc, timeout), m1) ∧
    if timeout then
      log run.2 = log m1 ++ teardown_events server_proc now r1
        ++ [row (Scenario.first_pairing Scenario.quick)
              (DurStr ("Timeout (" +:+ str TEST_TIMEOUT +:+ " s)"))]
    else
      ∃ st outcome,
        log run.2 = log m1 ++ teardown_events server_proc now r1
          ++ [EWait tester_proc None (Returns st);
              row (Scenario.first_pairing Scenario.quick) outcome] ∧
        (st ≠ Some 0%Z → outcome = DurStr "Error") ∧
        (st = Some 0%Z → outcome = DurFloat (float_sub now start_time)).
Proof.
  intros run. split; [vm_compute; reflexivity|].
  apply (outcome_priority (Sim.os Scenario.quick) [] 0
           (Scenario.first_pairing Scenario.quick) Sim.start run.2).
  vm_compute. reflexivity.
Defined.

(** The three rows, in silent mode.  The server takes three seconds to be
    ready and the tester one second to pass: the duration printed is one
    second, on a clock that shows four. *)
Example row_of_passing_tester :
  let run := main_iteration (Sim.os Scenario.quick) [] 0
               (Scenario.first_pairing Scenario.quick) Sim.start in
  run.1 = Ok tt ∧
  (∃ d, last (log run.2) =
          Some (row (Scenario.first_pairing Scenario.quick) (DurFloat d)) ∧
        (d == 1)%Q) ∧
  (Sim.clock (world run.2) == 4)%Q.
Proof.
  intros run. vm_compute. split; [reflexivity|]. split; [|reflexivity].
  eexists. split; reflexivity.
Qed.

Example row_of_failing_tester :
  let run := main_iteration (Sim.os Scenario.failing) [] 0
               (Scenario.first_pairing Scenario.failing) Sim.start in
  run.1 = Ok tt ∧
  last (log run.2) =
    Some (row (Scenario.first_pairing Scenario.failing) (DurStr "Error")).
Proof. intros run. vm_compute. by split. Qed.

Example row_of_slow_tester :
  let run := main_iteration (Sim.os Scenario.slow) [] 0
               (Scenario.first_pairing Scenario.slow) Sim.start in
  run.1 = Ok tt ∧
  last (log run.2) =
    Some (row (Scenario.first_pairing Scenario.slow) (DurStr "Timeout (120 s)")).
Proof. intros run. vm_compute. by split. Qed.

(** The stubborn tester in silent mode: the pairing ends in the [Timeout]
    row and the tester is running still; it was sent the interrupt and
    neither waited on nor killed. *)
Lemma timed_out_tester_left_running :
  let run := main_iteration (Sim.os Scenario.stubborn) [] 0
               (Scenario.first_pairing Scenario.stubborn) Sim.start in
  run.1 = Ok tt ∧
  last (log run.2) =
    Some (row (Scenario.first_pairing Scenario.stubborn) (DurStr "Timeout (120 s)")) ∧
  Sim.running 1 (world run.2) = true.
Proof. intros run. vm_compute. by repeat split. Qed.

Lemma server_stopped_after_pairing_witness :
  let run := main_iteration (Sim.os Scenario.quick) [] 0
               (Scenario.first_pairing Scenario.quick) Sim.start in
  (Scenario.first_pairing Scenario.quick ∈ variants (Sim.os Scenario.quick) ∧
   run.1 = Ok tt) ∧
  ∃ start_time timeout m1 evs,
    start_and_wait (Sim.os Scenario.quick) [] 0
      (Scenario.first_pairing Scenario.quick) Sim.start =
      (Ok (0, start_time, 1, timeout), m1) ∧
    Sim.running 0 (world run.2) = false ∧
    (timeout = false → Sim.running 1 (world run.2) = false) ∧
    log run.2 = log Sim.start ++ evs ∧
    Forall (λ e, ¬ kills 1 e) evs.
Proof.
  intros run. split; [split; [apply first_pairing_in|vm_compute; reflexivity]|].
  apply (server_stopped_after_pairing Scenario.quick [] 0
           (Scenario.first_pairing Scenario.quick) Sim.start run.2).
  - apply first_pairing_in.
  - vm_compute. reflexivity.
Defined.

(** The server's command cannot be started: the run ends with the
    operating system's error, which is not a keyboard interrupt, and no row
    is printed for the pairing. *)
Lemma spawn_failure_ends_the_run :
  let run := script (Sim.os Scenario.no_server) [] 0 Sim.start in
  run.1 = Raise FileNotFoundError ∧
  isinstance FileNotFoundError "KeyboardInterrupt" = false ∧
  count is_row (log run.2) = 0 ∧
  count is_abort_notice (log run.2) = 0.
Proof. intros run. vm_compute. by repeat split. Qed.

(** The operator presses Ctrl-C while the first server starts: the
    constructor's call is the last of the run, then the notice. *)
Lemma run_ends_on_any_exception_witness :
  let run := script (Sim.os Scenario.ctrl_c) [] 0 Sim.start in
  run.1 = Raise KeyboardInterrupt ∧
  ∃ m0 evs,
    main (Sim.os Scenario.ctrl_c) [] 0 Sim.start = (Raise KeyboardInterrupt, m0) ∧
    log run.2 = log Sim.start ++ evs ∧
    (count is_row evs < length (variants (Sim.os Scenario.ctrl_c)) ∧
     count is_abort_notice evs = 1) ∧
    ∃ before ev,
      evs = before ++ [ev; EPrint (LF +:+ "Aborted")] ∧
      raises KeyboardInterrupt ev ∧
      Forall (λ ev', ¬ raised ev') before.
Proof.
  intros run. split; [vm_compute; reflexivity|].
  apply (run_ends_on_any_exception (Sim.os Scenario.ctrl_c) [] 0 Sim.start
           (Raise KeyboardInterrupt) run.2).
  vm_compute. reflexivity.
Defined.

(** A whole run in which every other tester times out and the others
    fail: it completes, with a row for each of the 27 pairings. *)
Example failing_testers_do_not_end_the_run :
  let run := script (Sim.os Scenario.mixed) [] 0 Sim.start in
  run.1 = Ok tt ∧ count is_row (log run.2) = 27.
Proof. intros run. vm_compute. by split. Qed.

(** The tester's command cannot be started: the iteration raises, no
    teardown call is issued on the server, and the server is running
    still. *)
Lemma teardown_skipped_when_tester_fails :
  let run := main_iteration (Sim.os Scenario.no_tester) [] 0
               (Scenario.first_pairing Scenario.no_tester) Sim.start in
  run.1 = Raise FileNotFoundError ∧
  Forall (λ e, ¬ teardown_call 0 e) (log run.2) ∧
  Sim.running 0 (world run.2) = true.
Proof.
  intros run. vm_compute. split; [reflexivity|]. split; [|reflexivity].
  each_event.
Qed.

Lemma teardown_after_completed_wait_witness :
  let run := start_and_wait (Sim.os Scenario.no_tester) [] 0
               (Scenario.first_pairing Scenario.no_tester) Sim.start in
  (Scenario.first_pairing Scenario.no_tester ∈ variants (Sim.os Scenario.no_tester) ∧
   run.1 = Raise FileNotFoundError) ∧
  main_iteration (Sim.os Scenario.no_tester) [] 0
    (Scenario.first_pairing Scenario.no_tester) Sim.start =
    (Raise FileNotFoundError, run.2) ∧
  ∃ evs, log run.2 = log Sim.start ++ evs ∧
         Forall (λ ev, ¬ teardown_call 0 ev) evs.
Proof.
  intros run. split; [split; [apply first_pairing_in|vm_compute; reflexivity]|].
  apply (teardown_after_completed_wait (Sim.os Scenario.no_tester) [] 0
           (Scenario.first_pairing Scenario.no_tester) Sim.start
           (Raise FileNotFoundError) run.2).
  - apply first_pairing_in.
  - vm_compute. reflexivity.
Defined.

(** A tester that exits at once when interrupted, timed out in silent
    mode: the interrupt is sent and no un-timed wait follows. *)
Lemma no_final_wait_after_timeout :
  let run := main_iteration (Sim.os Scenario.slow) [] 0
               (Scenario.first_pairing Scenario.slow) Sim.start in
  run.1 = Ok tt ∧
  Exists (interrupted 1) (log run.2) ∧
  Forall (λ e, ¬ untimed_wait 1 e) (log run.2).
Proof.
  intros run. vm_compute. split; [reflexivity|]. split.
  - do 5 apply Exists_cons_tl. by apply Exists_cons_hd.
  - each_event.
Qed.

Lemma final_wait_unless_timed_out_witness :
  let run := main_iteration (Sim.os Scenario.slow) [] 0
               (Scenario.first_pairing Scenario.slow) Sim.start in
  (Scenario.first_pairing Scenario.slow ∈ variants (Sim.os Scenario.slow) ∧
   run.1 = Ok tt) ∧
  ∃ evs, log run.2 = log Sim.start ++ evs ∧
    (Exists (untimed_wait 1) evs ↔ ¬ Exists (interrupts 1) evs) ∧
    never_after (interrupts 1) (waits_on 1) evs.
Proof.
  intros run. split; [split; [apply first_pairing_in|vm_compute; reflexivity]|].
  apply (final_wait_unless_timed_out (Sim.os Scenario.slow) [] 0
           (Scenario.first_pairing Scenario.slow) Sim.start run.2).
  - apply first_pairing_in.
  - vm_compute. reflexivity.
Defined.

Lemma taped_pairing_in : Scenario.taped_pairing ∈ variants Replay.os.
Proof. unfold variants. cbn [mbind list_bind mret list_ret app]. left. Qed.

(** Silent mode: the tester is running still when the wait of
    [TEST_TIMEOUT] seconds runs out, so that it has run for longer than
    [TEST_TIMEOUT]; it has exited by the time of the poll, and the pairing
    is not timed out: the row is its duration, 120.5 seconds. *)
Lemma running_after_timeout_not_timed_out :
  let run := main_iteration Replay.os [] 0 Scenario.taped_pairing
               (boot Scenario.exit_between_wait_and_poll) in
  run.1 = Ok tt ∧
  log run.2 !! 3 =
    Some (EWait 1 (Some (inject_Z TEST_TIMEOUT)) (Returns None)) ∧
  (inject_Z TEST_TIMEOUT < 241 # 2)%Q ∧
  last (log run.2) = Some (row Scenario.taped_pairing (DurFloat (241 # 2))).
Proof. intros run. vm_compute. by repeat split. Qed.

(** Progress mode: the tester is running at both polls; the second
    elapsed time exceeds [TEST_TIMEOUT], and the pairing is timed out. *)
Lemma timeout_decided_by_replies_witness :
  let run := main_iteration Replay.os Scenario.progress_argv 2
               Scenario.taped_pairing (boot Scenario.running_at_every_poll) in
  (Scenario.taped_pairing ∈ variants Replay.os ∧ run.1 = Ok tt) ∧
  ∃ pre start waiting timeout now r1 final,
    log run.2 = [] ++ pre ++ waiting ++ teardown_events 0 now r1 ++ final ∧
    both_started 0 1 start pre ∧
    reported Scenario.taped_pairing 1 timeout (float_sub now start) final ∧
    (if bool_decide ("--progress" ∈ Scenario.progress_argv)
     then progress_verdict 1 start timeout waiting
     else silent_verdict 1 timeout waiting) ∧
    (Forall (λ e, ¬ reports_exit 1 e) waiting → timeout = true).
Proof.
  intros run. split; [split; [apply taped_pairing_in|vm_compute; reflexivity]|].
  apply (timeout_decided_by_replies Replay.os Scenario.progress_argv 2
           Scenario.taped_pairing (boot Scenario.running_at_every_poll) run.2).
  - apply taped_pairing_in.
  - vm_compute. reflexivity.
Defined.

(** The same run, read off: the [Timeout] row, at an elapsed time of
    120.0625 seconds. *)
Example row_of_tester_running_at_every_poll :
  let run := main_iteration Replay.os Scenario.progress_argv 2
               Scenario.taped_pairing (boot Scenario.running_at_every_poll) in
  run.1 = Ok tt ∧
  last (log run.2) =
    Some (row Scenario.taped_pairing (DurStr "Timeout (120 s)")).
Proof. intros run. vm_compute. by split. Qed.

Lemma duration_from_start_timestamp_witness :
  let run := main_iteration (Sim.os Scenario.quick) [] 0
               (Scenario.first_pairing Scenario.quick) Sim.start in
  (Scenario.first_pairing Scenario.quick ∈ variants (Sim.os Scenario.quick) ∧
   run.1 = Ok tt) ∧
  ∃ pre start waiting timeout now r1 final,
    log run.2 = log Sim.start ++ pre ++ waiting ++ teardown_events 0 now r1 ++ final ∧
    both_started 0 1 start pre ∧
    Forall (waiting_event 1) waiting ∧
    reported (Scenario.first_pairing Scenario.quick) 1 timeout (float_sub now start) final.
Proof.
  intros run. split; [split; [apply first_pairing_in|vm_compute; reflexivity]|].
  apply (duration_from_start_timestamp (Sim.os Scenario.quick) [] 0
           (Scenario.first_pairing Scenario.quick) Sim.start run.2).
  - apply first_pairing_in.
  - vm_compute. reflexivity.
Defined.

(** A pairing that completes, in silent mode: the tester passes after a
    second and the server is torn down. *)
Lemma pairing_order_witness :
  let run := main_iteration (Sim.os Scenario.quick) [] 0
               (Scenario.first_pairing Scenario.quick) Sim.start in
  (Scenario.first_pairing Scenario.quick ∈ variants (Sim.os Scenario.quick) ∧
   run.1 = Ok tt) ∧
  ∃ evs, log run.2 = log Sim.start ++ evs ∧
    precedes (started 0) (starts 1) evs ∧
    precedes (tester_over 1) (interrupts 0) evs ∧
    precedes (interrupted 0) (kills 0) evs ∧
    in_order [started 0; started 1; tester_over 1; interrupted 0; killed 0] evs.
Proof.
  intros run. split; [split; [apply first_pairing_in|vm_compute; reflexivity]|].
  destruct (pairing_order (Sim.os Scenario.quick) [] 0
              (Scenario.first_pairing Scenario.quick) Sim.start (Ok tt) run.2)
    as (evs & Hlog & Hstart & Hover & Hkill & Hall).
  - apply first_pairing_in.
  - vm_compute. reflexivity.
  - exists evs. split; [exact Hlog|]. split; [exact Hstart|].
    split; [exact Hover|]. split; [exact Hkill|]. by apply Hall.
Defined.

Lemma testers_mutate_env_in_place_witness :
  let m := Machine {[ 0 := {[ "NUM_TESTS" := "7"; "REAL_REQUEST" := "TRUE" ]} ]}
             1 0 (Sim.Make 0%Q ∅) [] in
  ∃ d', dicts (pytest_tester (Sim.os Scenario.quick) 0 m).2 !! 0 = Some d' ∧
        d' !! "NUM_TESTS" = Some "100" ∧
        d' !! "NUM_REQUESTS" = Some "50" ∧
        d' !! "REAL_REQUEST" = Some "TRUE".
Proof.
  intros m.
  destruct (testers_mutate_env_in_place (Sim.os Scenario.quick)) as [Hpy _].
  destruct (Hpy 0 {[ "NUM_TESTS" := "7"; "REAL_REQUEST" := "TRUE" ]} m eq_refl)
    as (d' & rep & w & (Ht & Hr & Hother) & _ & Hrun).
  exists d'. rewrite Hrun. cbn [snd dicts]. rewrite lookup_insert_eq.
  split; [done|]. split; [done|]. split; [done|].
  rewrite Hother by done. reflexivity.
Defined.

(** ** Further properties on concrete runs *)

(** In progress mode: the first tester passes after a second, shown by
    nine progress rows; the second server never becomes ready. *)
Lemma progress_rows_within_timeout_witness :
  let run := script (Sim.os Scenario.quick) Scenario.progress_argv 20 Sim.start in
  (run.1 = Block ∧ count is_row (log run.2) = 1) ∧
  ∃ evs, log run.2 = log Sim.start ++ evs ∧ Forall progress_row_within evs.
Proof.
  intros run. split; [vm_compute; by split|].
  apply (progress_rows_within_timeout (Sim.os Scenario.quick)
           Scenario.progress_argv 20 Sim.start Block run.2).
  vm_compute. reflexivity.
Defined.

Lemma modes_do_not_mix_witness :
  let run := script (Sim.os Scenario.quick) Scenario.progress_argv 20 Sim.start in
  run.1 = Block ∧
  ∃ evs, log run.2 = log Sim.start ++ evs ∧
    if bool_decide ("--progress" ∈ Scenario.progress_argv)
    then Forall (λ e, ¬ polls e ∧ ¬ waits_with (inject_Z TEST_TIMEOUT) e) evs
    else Forall (λ e, ¬ writes_stderr e ∧ ¬ waits_with (1 # 10) e) evs.
Proof.
  intros run. split; [vm_compute; reflexivity|].
  apply (modes_do_not_mix (Sim.os Scenario.quick) Scenario.progress_argv 20
           Sim.start Block run.2).
  vm_compute. reflexivity.
Defined.


Lemma processes_spawned_as_configured_witness :
  let run := script (Sim.os Scenario.quick) [] 0 Sim.start in
  run.1 = Block ∧
  ∃ evs, log run.2 = log Sim.start ++ evs ∧ Forall spawn_as_configured evs.
Proof.
  intros run. split; [vm_compute; reflexivity|].
  apply (processes_spawned_as_configured (Sim.os Scenario.quick) [] 0
           Sim.start Block run.2).
  vm_compute. reflexivity.
Defined.

(** The run stops in the second pairing: the table holds the row of the
    first. *)
Lemma table_follows_variants_witness :
  let run := script (Sim.os Scenario.quick) [] 0 Sim.start in
  (run.1 = Block ∧
   table (log run.2) = [("flask_jsonify", "pytest_real_request_get")]) ∧
  ∃ evs n, log run.2 = log Sim.start ++ evs ∧
    table evs = pairing_names <$> take n (variants (Sim.os Scenario.quick)) ∧
    n < length (variants (Sim.os Scenario.quick)).
Proof.
  intros run. split; [vm_compute; by split|].
  apply (table_follows_variants (Sim.os Scenario.quick) [] 0
           Sim.start Block run.2).
  vm_compute. reflexivity.
Defined.

Lemma variant_calls_build_fresh_environments_witness :
  let v := Scenario.first_pairing Scenario.quick in
  let run := func_call (tester v) Sim.start in
  (v ∈ variants (Sim.os Scenario.quick) ∧ run.1 = Ok 0) ∧
  ∃ args d wait_for rep,
    log run.2 = log Sim.start ++ [ESubtask 0 args d wait_for rep] ∧
    dicts run.2 !! 0 = Some d ∧
    next_loc run.2 = 1 ∧
    ∀ l, l ≠ 0 → dicts run.2 !! l = dicts Sim.start !! l.
Proof.
  intros v run. split; [split; [apply first_pairing_in|vm_compute; reflexivity]|].
  apply (variant_calls_build_fresh_environments (Sim.os Scenario.quick) v
           (tester v) Sim.start (Ok 0) run.2).
  - apply first_pairing_in.
  - by right.
  - vm_compute. reflexivity.
Defined.

(** In progress mode the tester of [Scenario.quick] is not timed out:
    every reading of the loop is within [TEST_TIMEOUT]. *)
Lemma progress_timeout_at_first_late_reading_witness :
  let v := Scenario.first_pairing Scenario.quick in
  let run := start_and_wait (Sim.os Scenario.quick) Scenario.progress_argv 20 v
               Sim.start in
  (v ∈ variants (Sim.os Scenario.quick) ∧
   "--progress" ∈ Scenario.progress_argv ∧
   run.1 = Ok (0, 3%Q, 1, false)) ∧
  ∃ pre waiting,
    log run.2 = log Sim.start ++ pre ++ waiting ∧
    both_started 0 1 3%Q pre ∧
    Forall (reading_within 3%Q) waiting.
Proof.
  intros v run.
  assert (Hp : "--progress" ∈ Scenario.progress_argv) by (right; left).
  split; [split; [apply first_pairing_in|split; [exact Hp|vm_compute; reflexivity]]|].
  apply (progress_timeout_at_first_late_reading (Sim.os Scenario.quick)
           Scenario.progress_argv 20 v Sim.start 0 3%Q 1 false run.2).
  - apply first_pairing_in.
  - exact Hp.
  - vm_compute. reflexivity.
Defined.

(** In silent mode the tester of [Scenario.slow] is timed out: the wait
    ran out and the poll found it running. *)
Lemma silent_timeout_decided_by_poll_witness :
  let v := Scenario.first_pairing Scenario.slow in
  let run := start_and_wait (Sim.os Scenario.slow) [] 0 v Sim.start in
  (v ∈ variants (Sim.os Scenario.slow) ∧ ("--progress" ∉ @nil string) ∧
   run.1 = Ok (0, 3%Q, 1, true)) ∧
  ∃ pre st rest,
    log run.2 = log Sim.start ++ pre
                ++ EWait 1 (Some (inject_Z TEST_TIMEOUT)) (Returns st) :: rest ∧
    both_started 0 1 3%Q pre ∧
    st ≠ Some 0%Z ∧
    rest = [EPoll 1 (Returns None); EInterrupt 1 (Returns tt)].
Proof.
  intros v run.
  assert (Hp : "--progress" ∉ @nil string) by apply not_elem_of_nil.
  split; [split; [apply first_pairing_in|split; [exact Hp|vm_compute; reflexivity]]|].
  apply (silent_timeout_decided_by_poll (Sim.os Scenario.slow) [] 0 v
           Sim.start 0 3%Q 1 true run.2).
  - apply first_pairing_in.
  - exact Hp.
  - vm_compute. reflexivity.
Defined.

Lemma rows_aligned_but_timeout_witness :
  let v := Scenario.first_pairing Scenario.quick in
  let fmt := λ _ : Q, "    1.000" in
  v ∈ variants (Sim.os Scenario.quick) ∧
  String.length
    (print_output_text fmt (func_name (server v)) (func_name (tester v))
       (DurFloat 1) NoColor) = table_width ∧
  String.length
    (print_output_text fmt (func_name (server v)) (func_name (tester v))
       (DurStr "Timeout (120 s)") NoColor) = table_width + 6.
Proof.
  intros v fmt.
  pose proof (rows_aligned_but_timeout fmt (Sim.os Scenario.quick) v
                (first_pairing_in Scenario.quick)) as (Hfit & _ & Htimeout).
  split; [apply first_pairing_in|]. split; [|exact Htimeout].
  apply (Hfit (DurFloat 1)). vm_compute. lia.
Defined.

Lemma name_variant_shape_witness :
  let f := Function (W := Sim.sim) "flask_json_lib"
             (flask_json_lib (Sim.os Scenario.quick)) in
  ascii_only (func_name f) = true ∧
  name_variant f = "Flask json lib" ∧
  String.length (name_variant f) = String.length (func_name f).
Proof.
  intros f. split; [reflexivity|]. split; [reflexivity|].
  apply (name_variant_shape f). reflexivity.
Defined.

Lemma name_variant_injective_witness :
  let f := Function (W := Sim.sim) "flask_json_lib"
             (flask_json_lib (Sim.os Scenario.quick)) in
  let g := Function (W := Sim.sim) "flask_json_lib"
             (flask_jsonify (Sim.os Scenario.quick)) in
  (snake_case (func_name f) = true ∧ snake_case (func_name g) = true ∧
   name_variant f = name_variant g) ∧
  func_name f = func_name g.
Proof.
  intros f g. split; [by repeat split|].
  apply (name_variant_injective f g); reflexivity.
Defined.

Lemma table_head_as_wide_as_rows_witness :
  let run := header (Sim.os Scenario.quick) Sim.start in
  run.1 = Ok tt ∧
  ∃ before head rule,
    log run.2 = log Sim.start ++ map EPrint (before ++ [head; rule]) ∧
    length before = 10 ∧
    String.length head = table_width ∧
    String.length rule = table_width ∧
    next_handle run.2 = next_handle Sim.start ∧
    dicts run.2 = dicts Sim.start.
Proof.
  intros run. split; [reflexivity|].
  apply (table_head_as_wide_as_rows (Sim.os Scenario.quick) Sim.start run.2).
  reflexivity.
Defined.
